(** * SpotifyService: a shallow embedding of backend/services/spotify.py

    The service reshapes the JSON payloads of a remote catalog into flat
    dictionaries.  Payloads are untyped Python values, every subscript can
    raise, and the two kinds of operation treat exceptions differently, so
    the embedding keeps all three visible: Python values, an exception
    result, and a world that records provider calls and printed lines. *)

From Stdlib Require Import String Ascii ZArith List Lia Bool.
From Equations Require Import Equations.
Import ListNotations.
Set Warnings "-register-all".
Open Scope string_scope.
Open Scope list_scope.
Open Scope Z_scope.

(* ===================================================================== *)
(** ** Python values *)
(* ===================================================================== *)

(** The values the parsed JSON payloads and the returned dictionaries are
    made of.  A dict is kept as its items in insertion order; a subscript
    finds the first item with the key. *)
Inductive value : Type :=
| VNone
| VBool (b : bool)
| VInt (n : Z)
| VStr (s : string)
| VList (l : list value)
| VDict (d : list (string * value)).

(** Exceptions below [Exception], the only ones the handlers catch. *)
Inductive exn : Type :=
| KeyError (key : value)
| IndexError
| TypeError
| AttributeError
| ValueError (msg : string)
| ProviderError (msg : string).

Inductive result (A : Type) : Type :=
| Ok (a : A)
| Raise (e : exn).
Arguments Ok {A} a.
Arguments Raise {A} e.

Definition rbind {A B} (r : result A) (k : A -> result B) : result B :=
  match r with
  | Ok a => k a
  | Raise e => Raise e
  end.

Notation "x <- e ;; k" := (rbind e (fun x => k))
  (at level 61, e at next level, right associativity).

(** [bool(v)] *)
Definition truthy (v : value) : bool :=
  match v with
  | VNone => false
  | VBool b => b
  | VInt n => negb (n =? 0)
  | VStr s => negb (String.eqb s "")
  | VList l => match l with [] => false | _ :: _ => true end
  | VDict d => match d with [] => false | _ :: _ => true end
  end.

Fixpoint dict_lookup (k : string) (d : list (string * value)) : option value :=
  match d with
  | [] => None
  | (k', v) :: rest => if String.eqb k k' then Some v else dict_lookup k rest
  end.

(** [v[k]] for a string key [k] *)
Definition getitem (v : value) (k : string) : result value :=
  match v with
  | VDict d =>
      match dict_lookup k d with
      | Some x => Ok x
      | None => Raise (KeyError (VStr k))
      end
  | _ => Raise TypeError
  end.

(** [v[0]] *)
Definition getitem0 (v : value) : result value :=
  match v with
  | VList (x :: _) => Ok x
  | VList [] => Raise IndexError
  | VStr (String c _) => Ok (VStr (String c ""))
  | VStr EmptyString => Raise IndexError
  | VDict _ => Raise (KeyError (VInt 0))
  | _ => Raise TypeError
  end.

(** [v.get(k, default)]; only a dict has the method. *)
Definition get (v : value) (k : string) (default : value) : result value :=
  match v with
  | VDict d =>
      match dict_lookup k d with
      | Some x => Ok x
      | None => Ok default
      end
  | _ => Raise AttributeError
  end.

Fixpoint chars (s : string) : list value :=
  match s with
  | EmptyString => []
  | String c rest => VStr (String c "") :: chars rest
  end.

(** What [for x in v] ranges over: the elements of a list, the keys of a
    dict, the characters of a string. *)
Definition iter (v : value) : result (list value) :=
  match v with
  | VList l => Ok l
  | VDict d => Ok (map (fun kv => VStr (fst kv)) d)
  | VStr s => Ok (chars s)
  | _ => Raise TypeError
  end.

(** [sep.join(l)]: every element has to be a string. *)
Fixpoint strings_of (l : list value) : result (list string) :=
  match l with
  | [] => Ok []
  | VStr s :: rest => t <- strings_of rest ;; Ok (s :: t)
  | _ :: _ => Raise TypeError
  end.

Definition join (sep : string) (l : list value) : result string :=
  strs <- strings_of l ;; Ok (String.concat sep strs).

(** A [for] loop whose body builds one record from [item] and appends it
    to [acc]. *)
Fixpoint for_append (body : value -> result value) (items acc : list value)
  : result (list value) :=
  match items with
  | [] => Ok acc
  | item :: rest => r <- body item ;; for_append body rest (acc ++ [r])
  end.

(** [[artist['name'] for artist in owner['artists']]] *)
Definition artist_names (owner : value) : result (list value) :=
  artists <- getitem owner "artists" ;;
  l <- iter artists ;;
  for_append (fun artist => getitem artist "name") l [].

(** [', '.join([artist['name'] for artist in owner['artists']])] *)
Definition artist_string (owner : value) : result value :=
  names <- artist_names owner ;;
  s <- join ", " names ;;
  Ok (VStr s).

(** [E[0]['url'] if E else None]: the condition is evaluated first, and
    [E] a second time when it holds. *)
Definition first_url_or_none (E : result value) : result value :=
  c <- E ;;
  if truthy c
  then images <- E ;; img <- getitem0 images ;; getitem img "url"
  else Ok VNone.

(* ===================================================================== *)
(** ** The records *)
(* ===================================================================== *)

(** The dict built for one item in [search_tracks] (lines 27-40). *)
Definition search_track_record (item : value) : result value :=
  v_id <- getitem item "id" ;;
  v_name <- getitem item "name" ;;
  v_artists <- artist_names item ;;
  v_artist <- artist_string item ;;
  v_album <- (a <- getitem item "album" ;; getitem a "name") ;;
  v_album_id <- (a <- getitem item "album" ;; getitem a "id") ;;
  v_duration_ms <- getitem item "duration_ms" ;;
  v_external_url <- (u <- getitem item "external_urls" ;; getitem u "spotify") ;;
  v_preview_url <- get item "preview_url" VNone ;;
  v_album_art <-
    first_url_or_none (a <- getitem item "album" ;; getitem a "images") ;;
  v_release_date <- (a <- getitem item "album" ;; get a "release_date" (VStr "")) ;;
  Ok (VDict [("id", v_id);
             ("name", v_name);
             ("artists", VList v_artists);
             ("artist", v_artist);
             ("album", v_album);
             ("album_id", v_album_id);
             ("duration_ms", v_duration_ms);
             ("external_url", v_external_url);
             ("preview_url", v_preview_url);
             ("album_art", v_album_art);
             ("release_date", v_release_date)]).

(** The dict returned by [get_track_details] (lines 52-68). *)
Definition track_details_record (track : value) : result value :=
  v_id <- getitem track "id" ;;
  v_name <- getitem track "name" ;;
  v_artists <- artist_names track ;;
  v_artist <- artist_string track ;;
  v_album_artists <- (a <- getitem track "album" ;; artist_names a) ;;
  v_album_artist <- (a <- getitem track "album" ;; artist_string a) ;;
  v_album <- (a <- getitem track "album" ;; getitem a "name") ;;
  v_album_id <- (a <- getitem track "album" ;; getitem a "id") ;;
  v_duration_ms <- getitem track "duration_ms" ;;
  v_external_url <- (u <- getitem track "external_urls" ;; getitem u "spotify") ;;
  v_preview_url <- get track "preview_url" VNone ;;
  v_track_number <- get track "track_number" (VInt 1) ;;
  v_album_art <-
    first_url_or_none (a <- getitem track "album" ;; getitem a "images") ;;
  v_release_date <- (a <- getitem track "album" ;; get a "release_date" (VStr "")) ;;
  Ok (VDict [("id", v_id);
             ("name", v_name);
             ("artists", VList v_artists);
             ("artist", v_artist);
             ("album_artists", VList v_album_artists);
             ("album_artist", v_album_artist);
             ("album", v_album);
             ("album_id", v_album_id);
             ("duration_ms", v_duration_ms);
             ("external_url", v_external_url);
             ("preview_url", v_preview_url);
             ("track_number", v_track_number);
             ("album_art", v_album_art);
             ("release_date", v_release_date)]).

(** The dict built for one item in [search_albums] (lines 80-89). *)
Definition search_album_record (item : value) : result value :=
  v_id <- getitem item "id" ;;
  v_name <- getitem item "name" ;;
  v_artist <- artist_string item ;;
  v_artists <- artist_names item ;;
  v_release_date <- get item "release_date" (VStr "") ;;
  v_total_tracks <- get item "total_tracks" (VInt 0) ;;
  v_album_art <- first_url_or_none (getitem item "images") ;;
  v_external_url <- (u <- getitem item "external_urls" ;; getitem u "spotify") ;;
  Ok (VDict [("id", v_id);
             ("name", v_name);
             ("artist", v_artist);
             ("artists", VList v_artists);
             ("release_date", v_release_date);
             ("total_tracks", v_total_tracks);
             ("album_art", v_album_art);
             ("external_url", v_external_url)]).

(** The dict built for one track of an album in [get_album_details]; the
    first page (lines 107-120) and the later pages (lines 137-150) build
    it the same way, from the item and the enclosing [album]. *)
Definition album_track_record (album item : value) : result value :=
  v_id <- getitem item "id" ;;
  v_name <- getitem item "name" ;;
  v_artists <- artist_names item ;;
  v_artist <- artist_string item ;;
  v_album <- getitem album "name" ;;
  v_album_id <- getitem album "id" ;;
  v_duration_ms <- getitem item "duration_ms" ;;
  v_track_number <- getitem item "track_number" ;;
  v_external_url <- (u <- getitem item "external_urls" ;; getitem u "spotify") ;;
  v_preview_url <- get item "preview_url" VNone ;;
  v_album_art <- first_url_or_none (getitem album "images") ;;
  v_release_date <- get album "release_date" (VStr "") ;;
  Ok (VDict [("id", v_id);
             ("name", v_name);
             ("artists", VList v_artists);
             ("artist", v_artist);
             ("album", v_album);
             ("album_id", v_album_id);
             ("duration_ms", v_duration_ms);
             ("track_number", v_track_number);
             ("external_url", v_external_url);
             ("preview_url", v_preview_url);
             ("album_art", v_album_art);
             ("release_date", v_release_date)]).

(** The dict returned by [get_album_details] (lines 164-174). *)
Definition album_details_record (album : value) (tracks : list value)
  : result value :=
  v_id <- getitem album "id" ;;
  v_name <- getitem album "name" ;;
  v_artist <- artist_string album ;;
  v_artists <- artist_names album ;;
  v_release_date <- get album "release_date" (VStr "") ;;
  v_total_tracks <- get album "total_tracks" (VInt 0) ;;
  v_album_art <- first_url_or_none (getitem album "images") ;;
  v_external_url <- (u <- getitem album "external_urls" ;; getitem u "spotify") ;;
  Ok (VDict [("id", v_id);
             ("name", v_name);
             ("artist", v_artist);
             ("artists", VList v_artists);
             ("release_date", v_release_date);
             ("total_tracks", v_total_tracks);
             ("album_art", v_album_art);
             ("external_url", v_external_url);
             ("tracks", VList tracks)]).

(* ===================================================================== *)
(** ** The world: provider calls and printed lines *)
(* ===================================================================== *)

(** The four methods of the client handle the service calls. *)
Inductive request : Type :=
| ReqSearch (q : string) (type : string) (limit : Z)
| ReqTrack (track_id : string)
| ReqAlbum (album_id : string)
| ReqAlbumTracks (album_id : string) (limit : Z) (offset : Z).

(** A printed line; [LineExn s e] is the f-string [s] followed by the
    rendering of the exception [e]. *)
Inductive line : Type :=
| Line (s : string)
| LineExn (s : string) (e : exn).

Section Service.

(** The provider is any machine that answers a request with a payload or
    an exception and moves to a next state. *)
Variable PS : Type.
Variable respond : PS -> request -> result value * PS.

Record world : Type := mkWorld {
  provider : PS;
  trace : list (request * result value);
  stdout : list line
}.

Definition io (A : Type) : Type := world -> result A * world.

Definition ret {A} (a : A) : io A := fun w => (Ok a, w).

Definition raise {A} (e : exn) : io A := fun w => (Raise e, w).

Definition bind {A B} (m : io A) (k : A -> io B) : io B :=
  fun w =>
    match m w with
    | (Ok a, w1) => k a w1
    | (Raise e, w1) => (Raise e, w1)
    end.

Definition lift {A} (r : result A) : io A := fun w => (r, w).

(** [try: body  except Exception as e: handler] *)
Definition try_except {A} (body : io A) (handler : exn -> io A) : io A :=
  fun w =>
    match body w with
    | (Ok a, w1) => (Ok a, w1)
    | (Raise e, w1) => handler e w1
    end.

Definition print (l : line) : io unit :=
  fun w => (Ok tt, mkWorld (provider w) (trace w) (stdout w ++ [l])).

(** One call through [self.client]; the trace keeps the request and its
    outcome. *)
Definition call (req : request) : io value :=
  fun w =>
    let (r, s) := respond (provider w) req in
    (r, mkWorld s (trace w ++ [(req, r)]) (stdout w)).

Notation "x <~ m ;; k" := (bind m (fun x => k))
  (at level 61, m at next level, right associativity).
Notation "m ;;; k" := (bind m (fun _ => k))
  (at level 61, right associativity).

(** *** __init__ (lines 10-18) *)

(** The client handle.  The two constructors of the client library that
    build it only store the credentials; no request is sent before the
    first call through the handle. *)
Record Client : Type := mkClient {
  client_id : value;
  client_secret : value
}.

Record SpotifyService : Type := mkService { client : Client }.

(** The two arguments are the attributes of the [config] module. *)
Definition __init__ (SPOTIFY_CLIENT_ID SPOTIFY_CLIENT_SECRET : value)
  : io SpotifyService :=
  if negb (truthy SPOTIFY_CLIENT_ID) || negb (truthy SPOTIFY_CLIENT_SECRET)
  then raise (ValueError "Spotify credentials not configured. Set SPOTIFY_CLIENT_ID and SPOTIFY_CLIENT_SECRET")
  else ret (mkService (mkClient SPOTIFY_CLIENT_ID SPOTIFY_CLIENT_SECRET)).

(** *** search_tracks (lines 20-46) *)
Definition search_tracks (query : string) (limit : Z) : io value :=
  try_except
    (results <~ call (ReqSearch query "track" limit) ;;
     items <~ lift (t <- getitem results "tracks" ;; getitem t "items") ;;
     l <~ lift (iter items) ;;
     tracks <~ lift (for_append search_track_record l []) ;;
     ret (VList tracks))
    (fun e =>
       print (LineExn "Spotify search error: " e) ;;;
       raise e).

(** *** get_track_details (lines 48-71) *)
Definition get_track_details (track_id : string) : io value :=
  try_except
    (track <~ call (ReqTrack track_id) ;;
     lift (track_details_record track))
    (fun e =>
       print (LineExn "Error fetching track details: " e) ;;;
       ret VNone).

(** *** search_albums (lines 73-95) *)
Definition search_albums (query : string) (limit : Z) : io value :=
  try_except
    (results <~ call (ReqSearch query "album" limit) ;;
     items <~ lift (t <- getitem results "albums" ;; getitem t "items") ;;
     l <~ lift (iter items) ;;
     albums <~ lift (for_append search_album_record l []) ;;
     ret (VList albums))
    (fun e =>
       print (LineExn "Spotify album search error: " e) ;;;
       raise e).

(** *** get_album_details (lines 97-177) *)

(** How one turn of the [while True] loop ends. *)
Inductive turn : Type :=
| Break (tracks : list value)
| Continue (offset : Z) (tracks : list value).

(** The line printed when the safety check stops the loop (line 161). *)
Definition ceiling_warning (album_id : string) : line :=
  Line ("Warning: Stopped pagination at 1000 tracks for album " ++ album_id)%string.

(** The body of the loop (lines 130-162), from the request to the safety
    check. *)
Definition page_turn (album : value) (album_id : string)
    (offset : Z) (tracks : list value) : io turn :=
  next_page <~ call (ReqAlbumTracks album_id 50 offset) ;;
  items <~ lift (getitem next_page "items") ;;
  if negb (truthy items) then ret (Break tracks) else
  l <~ lift (i <- getitem next_page "items" ;; iter i) ;;
  tracks <~ lift (for_append (album_track_record album) l tracks) ;;
  next <~ lift (get next_page "next" VNone) ;;
  if negb (truthy next) then ret (Break tracks) else
  let offset := offset + 50 in
  if 1000 <=? offset
  then
    print (ceiling_warning album_id) ;;;
    ret (Break tracks)
  else ret (Continue offset tracks).

(** How far the offset is below the ceiling of line 160. *)
Definition headroom (offset : Z) : nat := Z.to_nat (1000 - offset).
Arguments headroom : simpl never.

Definition inspect {A} (a : A) : {b : A | a = b} := exist _ a eq_refl.

(** The loop itself.  A turn that continues has moved the offset 50
    closer to the ceiling, so the loop always ends. *)
Equations? pagination (album : value) (album_id : string)
    (offset : Z) (tracks : list value) (w : world)
  : result (list value) * world
  by wf (headroom offset) lt :=
  pagination album album_id offset tracks w
    with inspect (page_turn album album_id offset tracks w) => {
    | exist _ (Raise e, w1) _ := (Raise e, w1);
    | exist _ (Ok (Break tracks1), w1) _ := (Ok tracks1, w1);
    | exist _ (Ok (Continue offset1 tracks1), w1) H :=
        pagination album album_id offset1 tracks1 w1 }.
Proof.
  revert H. unfold page_turn, bind, lift, ret, print.
  destruct (call _ w) as [[next_page|e] w0]; [|discriminate].
  destruct (getitem next_page "items") as [items|e]; [|discriminate].
  destruct (negb (truthy items)); [discriminate|].
  destruct (rbind _ _) as [l|e]; [|discriminate].
  destruct (for_append _ _ _) as [tr|e]; [|discriminate].
  destruct (get _ _ _) as [next|e]; [|discriminate].
  destruct (negb (truthy next)); [discriminate|].
  destruct (1000 <=? offset + 50) eqn:E; [discriminate|].
  intros H. inversion H. subst. apply Z.leb_gt in E.
  unfold headroom. lia.
Defined.

Definition get_album_details (album_id : string) : io value :=
  try_except
    (album <~ call (ReqAlbum album_id) ;;
     l <~ lift (t <- getitem album "tracks" ;; i <- getitem t "items" ;; iter i) ;;
     tracks <~ lift (for_append (album_track_record album) l []) ;;
     let offset := Z.of_nat (length tracks) in
     next <~ lift (t <- getitem album "tracks" ;; get t "next" VNone) ;;
     tracks <~ (if truthy next
                then pagination album album_id offset tracks
                else ret tracks) ;;
     lift (album_details_record album tracks))
    (fun e =>
       print (LineExn "Error fetching album details: " e) ;;;
       ret VNone).

End Service.

Arguments mkWorld {PS} _ _ _.
Arguments provider {PS} _.
Arguments trace {PS} _.
Arguments stdout {PS} _.
Arguments ret {PS A} a w.
Arguments raise {PS A} e w.
Arguments bind {PS A B} m k w.
Arguments lift {PS A} r w.
Arguments try_except {PS A} body handler w.
Arguments print {PS} l w.
Arguments call {PS} respond req w.
Arguments __init__ {PS} SPOTIFY_CLIENT_ID SPOTIFY_CLIENT_SECRET w.
Arguments search_tracks {PS} respond query limit w.
Arguments get_track_details {PS} respond track_id w.
Arguments search_albums {PS} respond query limit w.
Arguments page_turn {PS} respond album album_id offset tracks w.
Arguments pagination {PS} respond album album_id offset tracks w.
Arguments get_album_details {PS} respond album_id w.

(* ===================================================================== *)
(** ** The vocabulary of the properties *)
(* ===================================================================== *)

(** The reshaping of a search payload: the list of records, one per item
    under [results[kind]['items']]. *)
Definition search_payload (kind : string) (record : value -> result value)
    (results : value) : result value :=
  items <- (t <- getitem results kind ;; getitem t "items") ;;
  l <- iter items ;;
  rs <- for_append record l [] ;;
  Ok (VList rs).

(** The items embedded in the album payload, as the first loop of
    [get_album_details] ranges over them. *)
Definition first_page (album : value) : result (list value) :=
  t <- getitem album "tracks" ;; i <- getitem t "items" ;; iter i.

(** The world after one provider call that answered [r] and left the
    provider in state [s], with [lines] printed since. *)
Definition after {PS} (w : world PS) (s : PS) (req : request) (r : result value)
    (lines : list line) : world PS :=
  mkWorld s (trace w ++ [(req, r)]) (stdout w ++ lines).

(** [t] is [tracks] followed by records built from album track items. *)
Definition extends (album : value) (tracks t : list value) : Prop :=
  exists extra,
    t = tracks ++ extra
    /\ Forall (fun x => exists item, album_track_record album item = Ok x) extra.

(** The album art the specification asks for: the URL of the first image
    of the provider's list, null for an empty list. *)
Definition art_of_images (imgs : list value) (art : value) : Prop :=
  match imgs with
  | [] => art = VNone
  | img :: _ => getitem img "url" = Ok art
  end.

(** The record [r] holds, under [list_key] and [str_key], a list of names
    and its comma-plus-space join. *)
Definition artist_joined (r : value) (list_key str_key : string) : Prop :=
  exists names s,
    getitem r list_key = Ok (VList names)
    /\ join ", " names = Ok s
    /\ getitem r str_key = Ok (VStr s).

(** [artist_joined], with what it says about the empty string: an empty
    list joins to it, and only the empty list and the list of one empty
    name do. *)
Definition artist_is_join (r : value) (list_key str_key : string) : Prop :=
  exists names s,
    getitem r list_key = Ok (VList names)
    /\ join ", " names = Ok s
    /\ getitem r str_key = Ok (VStr s)
    /\ (names = [] -> s = "")
    /\ (s = "" -> names = [] \/ names = [VStr ""]).

(** [r1[k1]] and [r2[k2]] both exist and are equal. *)
Definition same_field (r1 : value) (k1 : string) (r2 : value) (k2 : string)
  : Prop :=
  exists x, getitem r1 k1 = Ok x /\ getitem r2 k2 = Ok x.

(** The four album-level values both kinds of record of
    [get_album_details] take from the album payload. *)
Definition shared_fields (album : value) (name id art date : value) : Prop :=
  getitem album "name" = Ok name
  /\ getitem album "id" = Ok id
  /\ first_url_or_none (getitem album "images") = Ok art
  /\ get album "release_date" (VStr "") = Ok date.

(** The record [r] shows the album art the specification asks for, for
    the image list found under [owner['images']]. *)
Definition art_from (owner r : value) : Prop :=
  forall imgs,
    getitem owner "images" = Ok (VList imgs) ->
    exists art, getitem r "album_art" = Ok art /\ art_of_images imgs art.

(** [l] is the sequence of items the payload [results] holds under
    [results[kind]['items']]. *)
Definition served_items (kind : string) (results : value) (l : list value)
  : Prop :=
  exists t items,
    getitem results kind = Ok t
    /\ getitem t "items" = Ok items
    /\ iter items = Ok l.

(** The run from [w] to [w'] printed the warning of the safety check and
    nothing else: the loop was stopped at the ceiling. *)
Definition aborted_at_ceiling {PS} (album_id : string) (w w' : world PS)
  : Prop :=
  stdout w' = stdout w ++ [ceiling_warning album_id].

(** A provider that holds the album payload [album], whose track items
    are [all].  It declares [length all] as the total, embeds the first
    [first] items in the album, answers a page request at offset [o] with
    the next [page_size] items from [o] on (fewer when fewer remain), and
    gives a continuation link exactly while items remain after the page.
    Every item and the album itself can be reshaped. *)
Definition serves_album {PS} (respond : PS -> request -> result value * PS)
    (album_id : string) (album : value) (all : list value)
    (first page_size : nat) : Prop :=
  (forall st, exists st', respond st (ReqAlbum album_id) = (Ok album, st'))
  /\ get album "total_tracks" (VInt 0) = Ok (VInt (Z.of_nat (length all)))
  /\ (exists t next,
        getitem album "tracks" = Ok t
        /\ getitem t "items" = Ok (VList (firstn first all))
        /\ get t "next" VNone = Ok next
        /\ truthy next = Nat.ltb first (length all))
  /\ (forall st o, exists st' page next,
        respond st (ReqAlbumTracks album_id 50 (Z.of_nat o)) = (Ok page, st')
        /\ getitem page "items" = Ok (VList (firstn page_size (skipn o all)))
        /\ get page "next" VNone = Ok next
        /\ truthy next = Nat.ltb (o + page_size) (length all))
  /\ Forall (fun item => exists x, album_track_record album item = Ok x) all
  /\ (forall tracks, exists v, album_details_record album tracks = Ok v).

(** A provider that never runs out of pages for [album]: in any state and
    at any offset it answers a non-empty page of items that can be
    reshaped, with a continuation link. *)
Definition endless_pages {PS} (respond : PS -> request -> result value * PS)
    (album_id : string) (album : value) : Prop :=
  forall st o, exists st' page items l next,
    respond st (ReqAlbumTracks album_id 50 o) = (Ok page, st')
    /\ getitem page "items" = Ok items
    /\ truthy items = true
    /\ iter items = Ok l
    /\ Forall (fun item => exists x, album_track_record album item = Ok x) l
    /\ get page "next" VNone = Ok next
    /\ truthy next = true.

(** The number of tracks in the listing of a returned album record. *)
Definition listing_length (r : result value) : option nat :=
  match r with
  | Ok v =>
      match getitem v "tracks" with
      | Ok (VList tracks) => Some (length tracks)
      | _ => None
      end
  | Raise _ => None
  end.

(** The failure policy of a search [op] that sends [req] and reshapes the
    answer with [payload]: an exception of the provider call, or of the
    reshaping, is printed after [prefix] and raised again, after that one
    call; the search returns exactly when neither raises, having printed
    nothing. *)
Definition logs_and_reraises {PS}
    (respond : PS -> request -> result value * PS)
    (op : io PS value) (req : request)
    (prefix : string) (payload : value -> result value) (w : world PS)
  : Prop :=
  (forall e s,
     respond (provider w) req = (Raise e, s) ->
     op w = (Raise e, after w s req (Raise e) [LineExn prefix e]))
  /\ (forall results s e,
        respond (provider w) req = (Ok results, s) ->
        payload results = Raise e ->
        op w = (Raise e, after w s req (Ok results) [LineExn prefix e]))
  /\ (forall results s v,
        respond (provider w) req = (Ok results, s) ->
        payload results = Ok v ->
        op w = (Ok v, after w s req (Ok results) []))
  /\ ((exists v w', op w = (Ok v, w'))
      <-> (exists results s v,
             respond (provider w) req = (Ok results, s)
             /\ payload results = Ok v)).

(** The keys of a record, in the order of its dict literal. *)
Definition keys (r : value) : list string :=
  match r with
  | VDict d => map fst d
  | _ => []
  end.

(** The record [r] names the artists of [owner]: its list holds one
    name per artist object of [owner['artists']], in their order, each a
    string, and its artist string is their join. *)
Definition artists_from (owner r : value) (list_key str_key : string)
  : Prop :=
  exists artists l strs,
    getitem owner "artists" = Ok artists
    /\ iter artists = Ok l
    /\ Forall2 (fun a s => getitem a "name" = Ok (VStr s)) l strs
    /\ getitem r list_key = Ok (VList (map VStr strs))
    /\ getitem r str_key = Ok (VStr (String.concat ", " strs)).

(** The record [r] has no album art when [owner['images']] is any value
    that counts as false: null, an empty list, an empty string. *)
Definition art_none_when_falsy (owner r : value) : Prop :=
  forall imgs,
    getitem owner "images" = Ok imgs ->
    truthy imgs = false ->
    getitem r "album_art" = Ok VNone.

(** Every field of [r1] is a field of [r2], with the same value. *)
Definition fields_within (r1 r2 : value) : Prop :=
  forall k x, getitem r1 k = Ok x -> getitem r2 k = Ok x.

(** The items a page answer adds to the listing: those of a non-empty
    [items], none otherwise. *)
Definition page_items (r : result value) : list value :=
  match r with
  | Ok page =>
      match getitem page "items" with
      | Ok items =>
          if truthy items
          then match iter items with Ok l => l | Raise _ => [] end
          else []
      | Raise _ => []
      end
  | Raise _ => []
  end.

(** A page answer after which the loop can go on: it arrived, is not
    empty and has a continuation link. *)
Definition page_continues (r : result value) : Prop :=
  exists page items next,
    r = Ok page
    /\ getitem page "items" = Ok items
    /\ truthy items = true
    /\ get page "next" VNone = Ok next
    /\ truthy next = true.

(** What [get_album_details] reads before the loop (lines 100-128): the
    album, the records of its embedded tracks and its continuation link. *)
Definition album_prelude (ra : result value)
  : result (value * list value * value) :=
  album <- ra ;;
  l <- first_page album ;;
  rs <- for_append (album_track_record album) l [] ;;
  next <- (t <- getitem album "tracks" ;; get t "next" VNone) ;;
  Ok (album, rs, next).

(** The album record [r] with the listing [tracks] added as its last
    field. *)
Definition with_tracks (r : value) (tracks : list value) : value :=
  match r with
  | VDict d => VDict (d ++ [("tracks", VList tracks)])
  | _ => r
  end.

(** The keys of the five kinds of record. *)
Definition search_track_keys : list string :=
  ["id"; "name"; "artists"; "artist"; "album"; "album_id"; "duration_ms";
   "external_url"; "preview_url"; "album_art"; "release_date"].

Definition track_details_keys : list string :=
  ["id"; "name"; "artists"; "artist"; "album_artists"; "album_artist";
   "album"; "album_id"; "duration_ms"; "external_url"; "preview_url";
   "track_number"; "album_art"; "release_date"].

Definition search_album_keys : list string :=
  ["id"; "name"; "artist"; "artists"; "release_date"; "total_tracks";
   "album_art"; "external_url"].

Definition album_track_keys : list string :=
  ["id"; "name"; "artists"; "artist"; "album"; "album_id"; "duration_ms";
   "track_number"; "external_url"; "preview_url"; "album_art";
   "release_date"].

Definition album_details_keys : list string :=
  search_album_keys ++ ["tracks"].

(** The keys a track payload must have for [get_track_details] to build
    its record. *)
Definition required_track_keys : list string :=
  ["id"; "name"; "artists"; "album"; "duration_ms"; "external_urls"].

(* ===================================================================== *)
(** ** Sample providers *)
(* ===================================================================== *)

Definition artist_obj (name : string) : value := VDict [("name", VStr name)].

Definition image_obj (url : string) : value := VDict [("url", VStr url)].

(** An album track item as the catalog serves it; [n] is its position. *)
Definition track_item (n : nat) : value :=
  VDict [("id", VStr "t");
         ("name", VStr "Song");
         ("artists", VList [artist_obj "Ann"; artist_obj "Bob"]);
         ("duration_ms", VInt 180000);
         ("track_number", VInt (Z.of_nat (S n)));
         ("external_urls", VDict [("spotify", VStr "https://open/t")]);
         ("preview_url", VNone)].

Definition track_items (total : nat) : list value := map track_item (seq 0 total).

(** A page of the track listing: [size] items from [offset] on, with a
    continuation link while items remain after it. *)
Definition page (total : nat) (offset size : nat) : value :=
  VDict [("items", VList (firstn size (skipn offset (track_items total))));
         ("next", if Nat.ltb (offset + size) total
                  then VStr "https://api/next" else VNone)].

Definition album_obj (total : nat) (first : nat) : value :=
  VDict [("id", VStr "a");
         ("name", VStr "Album");
         ("artists", VList [artist_obj "Ann"]);
         ("release_date", VStr "2020-01-01");
         ("total_tracks", VInt (Z.of_nat total));
         ("images", VList [image_obj "https://img/640"; image_obj "https://img/300"]);
         ("external_urls", VDict [("spotify", VStr "https://open/a")]);
         ("tracks", page total 0 first)].

(** The album object embedded in a full track object. *)
Definition album_summary : value :=
  VDict [("id", VStr "a");
         ("name", VStr "Album");
         ("artists", VList [artist_obj "Ann"]);
         ("release_date", VStr "2020-01-01");
         ("total_tracks", VInt 12);
         ("images", VList [image_obj "https://img/640"; image_obj "https://img/300"]);
         ("external_urls", VDict [("spotify", VStr "https://open/a")])].

(** A full track object, as a track search or a track lookup serves it. *)
Definition full_track (n : nat) : value :=
  VDict [("id", VStr "t");
         ("name", VStr "Song");
         ("artists", VList [artist_obj "Ann"; artist_obj "Bob"]);
         ("album", album_summary);
         ("duration_ms", VInt 180000);
         ("track_number", VInt (Z.of_nat (S n)));
         ("external_urls", VDict [("spotify", VStr "https://open/t")]);
         ("preview_url", VNone)].

(** The answer to a track search that asked for at most [n] tracks. *)
Definition track_results (n : nat) : value :=
  VDict [("tracks", VDict [("items",
            VList (firstn n (map full_track (seq 0 3))))])].

(** A stateless catalog holding one album of [total] tracks; it embeds
    [first] tracks in the album and serves at most [cap] tracks per page,
    whatever limit is asked for above that.  A search finds up to three
    tracks or two albums. *)
Definition catalog (total first cap : nat) (s : unit) (req : request)
  : result value * unit :=
  match req with
  | ReqAlbum _ => (Ok (album_obj total first), s)
  | ReqAlbumTracks _ limit offset =>
      (Ok (page total (Z.to_nat offset) (Nat.min (Z.to_nat limit) cap)), s)
  | ReqTrack _ => (Ok (full_track 6), s)
  | ReqSearch _ kind limit =>
      if String.eqb kind "track"
      then (Ok (track_results (Z.to_nat limit)), s)
      else (Ok (VDict [("albums", VDict [("items",
              VList (firstn (Z.to_nat limit) [album_summary; album_summary]))])]), s)
  end.

(** A provider out of service. *)
Definition down (s : unit) (req : request) : result value * unit :=
  (Raise (ProviderError "503"), s).

(** A provider that serves the album and fails on every page request. *)
Definition flaky (s : unit) (req : request) : result value * unit :=
  match req with
  | ReqAlbumTracks _ _ _ => (Raise (ProviderError "429"), s)
  | _ => catalog 120 50 50 s req
  end.

(** A provider whose payloads are empty objects. *)
Definition hollow (s : unit) (req : request) : result value * unit :=
  (Ok (VDict []), s).

(** A provider whose only artist has an empty name. *)
Definition nameless (s : unit) (req : request) : result value * unit :=
  (Ok (VDict [("id", VStr "t");
              ("name", VStr "Song");
              ("artists", VList [artist_obj ""]);
              ("album", album_summary);
              ("duration_ms", VInt 180000);
              ("external_urls", VDict [("spotify", VStr "https://open/t")])]), s).

(** A provider that never runs out of pages: every page holds fifty
    tracks and a continuation link. *)
Definition endless (s : unit) (req : request) : result value * unit :=
  match req with
  | ReqAlbumTracks _ _ _ =>
      (Ok (VDict [("items", VList (track_items 50));
                  ("next", VStr "https://api/next")]), s)
  | _ => catalog 60 50 50 s req
  end.

Definition world0 {PS} (s : PS) : world PS := mkWorld s [] [].

(** What the operations return on the sample catalog. *)
Definition value_of (r : result value * world unit) : value :=
  match fst r with
  | Ok v => v
  | Raise _ => VNone
  end.

Definition list_of (v : value) : list value :=
  match v with
  | VList l => l
  | _ => []
  end.

Definition full_track_record_sample : value :=
  Eval vm_compute in
    value_of (get_track_details (catalog 12 12 50) "t" (world0 tt)).

Definition search_tracks_sample : list value :=
  Eval vm_compute in
    list_of (value_of (search_tracks (catalog 12 12 50) "song" 20 (world0 tt))).

Definition nameless_record_sample : value :=
  Eval vm_compute in
    value_of (get_track_details nameless "t" (world0 tt)).

Definition album_record_sample : value :=
  Eval vm_compute in
    value_of (get_album_details (catalog 120 50 50) "a" (world0 tt)).

(** A provider whose search answer has a null between two tracks. *)
Definition gappy (s : unit) (req : request) : result value * unit :=
  (Ok (VDict [("tracks", VDict [("items",
         VList [full_track 0; VNone; full_track 2])])]), s).

(** An album track item without a track number. *)
Definition unnumbered_fields : list (string * value) :=
  [("id", VStr "t");
   ("name", VStr "Song");
   ("artists", VList [artist_obj "Ann"]);
   ("duration_ms", VInt 180000);
   ("external_urls", VDict [("spotify", VStr "https://open/t")])].

Definition unnumbered_item : value := VDict unnumbered_fields.

(** A provider whose track has an album without images. *)
Definition imageless_album : value :=
  VDict [("id", VStr "a");
         ("name", VStr "Album");
         ("artists", VList [artist_obj "Ann"]);
         ("images", VNone)].

Definition imageless_track : value :=
  VDict [("id", VStr "t");
         ("name", VStr "Song");
         ("artists", VList [artist_obj "Ann"; artist_obj "Bob"]);
         ("album", imageless_album);
         ("duration_ms", VInt 180000);
         ("external_urls", VDict [("spotify", VStr "https://open/t")])].

Definition imageless (s : unit) (req : request) : result value * unit :=
  (Ok imageless_track, s).

Definition imageless_record_sample : value :=
  Eval vm_compute in
    value_of (get_track_details imageless "t" (world0 tt)).

(** A provider whose album embeds two tracks, the second unnumbered. *)
Definition numberless_album : value :=
  VDict [("id", VStr "a");
         ("name", VStr "Album");
         ("artists", VList [artist_obj "Ann"]);
         ("images", VNone);
         ("external_urls", VDict [("spotify", VStr "https://open/a")]);
         ("tracks", VDict [("items", VList [track_item 0; unnumbered_item])])].

Definition numberless (s : unit) (req : request) : result value * unit :=
  (Ok numberless_album, s).

(* ===================================================================== *)
(** ** The statements of the specification that fail *)
(* ===================================================================== *)

(** The statement "every Track record of [search_tracks] has a track
    number", for every provider. *)
Definition search_tracks_carry_track_number : Prop :=
  forall (PS : Type) (respond : PS -> request -> result value * PS)
         q N w tracks w',
    search_tracks respond q N w = (Ok (VList tracks), w') ->
    Forall (fun r => exists n, getitem r "track_number" = Ok n) tracks.

(** The statement "a search returns normally exactly when the provider
    call succeeds", for every provider. *)
Definition search_returns_iff_provider_succeeds : Prop :=
  forall (PS : Type) (respond : PS -> request -> result value * PS) q N w,
    (exists v w', search_tracks respond q N w = (Ok v, w'))
    <-> (exists results s,
           respond (provider w) (ReqSearch q "track" N) = (Ok results, s)).

(** The statement "with pages of at most 50 tracks the listing is
    complete unless the loop is stopped at the ceiling", for every
    provider and every page size up to 50. *)
Definition pages_of_at_most_50_give_all_tracks : Prop :=
  forall (PS : Type) (respond : PS -> request -> result value * PS)
         album_id album all first page_size w,
    (50 < length all)%nat ->
    (first <= 50)%nat ->
    (0 < page_size <= 50)%nat ->
    serves_album respond album_id album all first page_size ->
    ~ aborted_at_ceiling album_id w (snd (get_album_details respond album_id w)) ->
    listing_length (fst (get_album_details respond album_id w))
    = Some (length all).

(** The statement "no page request has an offset of 1000 or more", for
    every provider. *)
Definition page_offsets_below_ceiling : Prop :=
  forall (PS : Type) (respond : PS -> request -> result value * PS)
         (st : PS) album_id id limit o r,
    In (ReqAlbumTracks id limit o, r)
       (trace (snd (get_album_details respond album_id (world0 st)))) ->
    o < 1000.

(** The statement "the artist string is empty exactly when the artist
    list is empty", for every provider. *)
Definition artist_empty_iff_no_artists : Prop :=
  forall (PS : Type) (respond : PS -> request -> result value * PS)
         track_id w v w' names s,
    get_track_details respond track_id w = (Ok v, w') ->
    getitem v "artists" = Ok (VList names) ->
    getitem v "artist" = Ok (VStr s) ->
    (s = "" <-> names = []).

(* ===================================================================== *)
(** ** Properties of the record builders *)
(* ===================================================================== *)

(** Splits a successful chain of binds into its successful steps. *)
Ltac bind_inv H :=
  unfold rbind in H;
  repeat match type of H with
    | context [match ?e with Ok _ => _ | Raise _ => _ end] =>
        let E := fresh "E" in destruct e eqn:E; [|discriminate H]
    end.

Lemma for_append_inv body items : forall acc r,
  for_append body items acc = Ok r ->
  exists rs, r = acc ++ rs /\ Forall2 (fun item x => body item = Ok x) items rs.
Proof.
  induction items as [|item rest IH]; simpl; intros acc r H.
  - inversion H. exists []. rewrite app_nil_r. auto.
  - destruct (body item) as [x|e] eqn:Hx; simpl in H; [|discriminate].
    destruct (IH _ _ H) as (rs & -> & Hrs).
    exists (x :: rs). rewrite <- app_assoc. simpl. auto.
Qed.

Lemma for_append_complete body items : forall acc rs,
  Forall2 (fun item x => body item = Ok x) items rs ->
  for_append body items acc = Ok (acc ++ rs).
Proof.
  induction items as [|item rest IH]; intros acc rs H; inversion H; subst; simpl.
  - now rewrite app_nil_r.
  - rewrite H2. simpl. rewrite (IH _ _ H4), <- app_assoc. reflexivity.
Qed.

Lemma for_append_total body items acc :
  Forall (fun item => exists x, body item = Ok x) items ->
  exists rs, for_append body items acc = Ok (acc ++ rs)
             /\ length rs = length items.
Proof.
  intros H. revert acc. induction H as [|item rest [x Hx] _ IH]; intros acc; simpl.
  - exists []. now rewrite app_nil_r.
  - rewrite Hx. simpl. destruct (IH (acc ++ [x])) as (rs & -> & Hl).
    exists (x :: rs). rewrite <- app_assoc. simpl. auto.
Qed.

Lemma Forall_slice {A} (P : A -> Prop) n o l :
  Forall P l -> Forall P (firstn n (skipn o l)).
Proof.
  intros H. rewrite <- (firstn_skipn o l) in H.
  apply Forall_app in H. destruct H as [_ H].
  rewrite <- (firstn_skipn n (skipn o l)) in H.
  apply Forall_app in H. tauto.
Qed.

Lemma Forall2_length_eq {A B} (R : A -> B -> Prop) l1 l2 :
  Forall2 R l1 l2 -> length l1 = length l2.
Proof. induction 1; simpl; congruence. Qed.

Lemma first_url_or_none_list E imgs art :
  E = Ok (VList imgs) ->
  first_url_or_none E = Ok art ->
  art_of_images imgs art.
Proof.
  intros -> H. unfold first_url_or_none in H. simpl in H.
  destruct imgs as [|img rest]; simpl in *.
  - now inversion H.
  - exact H.
Qed.

Lemma artist_string_join owner names a :
  artist_names owner = Ok names ->
  artist_string owner = Ok a ->
  exists s, join ", " names = Ok s /\ a = VStr s.
Proof.
  intros Hn H. unfold artist_string in H. rewrite Hn in H. simpl in H.
  destruct (join ", " names) as [s|e]; simpl in H; [|discriminate].
  inversion H. eauto.
Qed.

Lemma append_empty (a b : string) : (a ++ b)%string = "" -> a = "" /\ b = "".
Proof. destruct a; simpl; [auto | discriminate]. Qed.

Lemma concat_empty (strs : list string) :
  String.concat ", " strs = "" -> strs = [] \/ strs = [""].
Proof.
  destruct strs as [|x [|y rest]]; simpl; intros H.
  - now left.
  - right. now subst.
  - apply append_empty in H. destruct H as [_ H]. discriminate H.
Qed.

Lemma strings_of_inv names strs :
  strings_of names = Ok strs -> names = map VStr strs.
Proof.
  revert strs. induction names as [|v rest IH]; simpl; intros strs H.
  - now inversion H.
  - destruct v; try discriminate.
    destruct (strings_of rest) as [t|e]; simpl in H; [|discriminate].
    inversion H. subst. simpl. now rewrite (IH t).
Qed.

Lemma join_empty names s :
  join ", " names = Ok s ->
  (names = [] -> s = "") /\ (s = "" -> names = [] \/ names = [VStr ""]).
Proof.
  unfold join. intros H.
  destruct (strings_of names) as [strs|e] eqn:Hs; simpl in H; [|discriminate].
  inversion H as [Hc]. apply strings_of_inv in Hs. subst names. split.
  - destruct strs; [reflexivity | discriminate].
  - intros Hc'. destruct (concat_empty strs Hc') as [-> | ->]; auto.
Qed.

(** Inverts [record item = Ok r] down to the subscripts that succeeded. *)
Ltac record_inv H :=
  bind_inv H; inversion H; subst; clear H;
  repeat match goal with
    | H' : context [match ?e with Ok _ => _ | Raise _ => _ end] |- _ =>
        let E := fresh "E" in
        destruct e eqn:E; cbv beta iota in *; try discriminate
    end.

Ltac solve_joined :=
  match goal with
  | En : artist_names ?o = Ok ?n, Es : artist_string ?o = Ok ?a
    |- artist_joined _ _ _ =>
      let s := fresh "s" in
      let Hj := fresh "Hj" in
      destruct (artist_string_join _ _ _ En Es) as (s & Hj & ->);
      exists n, s; split; [reflexivity | split; [exact Hj | reflexivity]]
  end.

Ltac solve_art :=
  match goal with
  | Hi : ?E = Ok (VList ?imgs), Hf : first_url_or_none ?E = Ok ?art
    |- exists _, _ /\ art_of_images ?imgs _ =>
      exists art; split; [reflexivity | exact (first_url_or_none_list _ _ _ Hi Hf)]
  end.

Lemma search_track_record_fields item r :
  search_track_record item = Ok r ->
  artist_joined r "artists" "artist"
  /\ getitem r "track_number" = Raise (KeyError (VStr "track_number"))
  /\ forall a imgs,
       getitem item "album" = Ok a ->
       getitem a "images" = Ok (VList imgs) ->
       exists art, getitem r "album_art" = Ok art /\ art_of_images imgs art.
Proof.
  intros H. unfold search_track_record in H. record_inv H.
  split; [solve_joined|]. split; [reflexivity|].
  intros a' imgs Ha Hi. inversion Ha; subst. solve_art.
Qed.

Lemma track_details_record_fields track r :
  track_details_record track = Ok r ->
  artist_joined r "artists" "artist"
  /\ artist_joined r "album_artists" "album_artist"
  /\ getitem r "track_number" = get track "track_number" (VInt 1)
  /\ r <> VNone
  /\ forall a imgs,
       getitem track "album" = Ok a ->
       getitem a "images" = Ok (VList imgs) ->
       exists art, getitem r "album_art" = Ok art /\ art_of_images imgs art.
Proof.
  intros H. unfold track_details_record in H. record_inv H.
  split; [solve_joined|]. split; [solve_joined|].
  split; [simpl; congruence|]. split; [discriminate|].
  intros a' imgs Ha Hi. inversion Ha; subst. solve_art.
Qed.

Lemma track_details_record_dict track r :
  track_details_record track = Ok r -> exists d, track = VDict d.
Proof.
  unfold track_details_record. destruct track; try discriminate. eauto.
Qed.

Lemma search_album_record_fields item r :
  search_album_record item = Ok r ->
  artist_joined r "artists" "artist"
  /\ forall imgs,
       getitem item "images" = Ok (VList imgs) ->
       exists art, getitem r "album_art" = Ok art /\ art_of_images imgs art.
Proof.
  intros H. unfold search_album_record in H. record_inv H.
  split; [solve_joined|].
  intros imgs Hi. solve_art.
Qed.

Lemma album_track_record_fields album item r :
  album_track_record album item = Ok r ->
  artist_joined r "artists" "artist"
  /\ exists name id art date,
       shared_fields album name id art date
       /\ getitem r "album" = Ok name
       /\ getitem r "album_id" = Ok id
       /\ getitem r "album_art" = Ok art
       /\ getitem r "release_date" = Ok date.
Proof.
  intros H. unfold album_track_record in H. record_inv H.
  split; [solve_joined|].
  do 4 eexists. unfold shared_fields. repeat split; eauto.
Qed.

Lemma album_details_record_fields album tracks r :
  album_details_record album tracks = Ok r ->
  artist_joined r "artists" "artist"
  /\ getitem r "total_tracks" = get album "total_tracks" (VInt 0)
  /\ getitem r "tracks" = Ok (VList tracks)
  /\ r <> VNone
  /\ exists name id art date,
       shared_fields album name id art date
       /\ getitem r "name" = Ok name
       /\ getitem r "id" = Ok id
       /\ getitem r "album_art" = Ok art
       /\ getitem r "release_date" = Ok date.
Proof.
  intros H. unfold album_details_record in H. record_inv H.
  split; [solve_joined|]. split; [simpl; congruence|].
  split; [reflexivity|]. split; [discriminate|].
  do 4 eexists. unfold shared_fields. repeat split; eauto.
Qed.

Lemma artist_joined_is_join r list_key str_key :
  artist_joined r list_key str_key -> artist_is_join r list_key str_key.
Proof.
  intros (names & s & Hl & Hj & Hs). exists names, s.
  destruct (join_empty _ _ Hj). repeat split; auto.
Qed.

Lemma shared_fields_art album name id art date :
  shared_fields album name id art date ->
  forall imgs, getitem album "images" = Ok (VList imgs) ->
  art_of_images imgs art.
Proof.
  intros (_ & _ & Ha & _) imgs Hi.
  exact (first_url_or_none_list _ _ _ Hi Ha).
Qed.

Lemma shared_fields_unique album n1 i1 a1 d1 n2 i2 a2 d2 :
  shared_fields album n1 i1 a1 d1 ->
  shared_fields album n2 i2 a2 d2 ->
  n1 = n2 /\ i1 = i2 /\ a1 = a2 /\ d1 = d2.
Proof.
  unfold shared_fields. intros (A & B & C & D) (A' & B' & C' & D').
  repeat split; congruence.
Qed.

Section Runs.

Variable PS : Type.
Variable respond : PS -> request -> result value * PS.

Lemma search_tracks_run q N w :
  search_tracks respond q N w =
  let req := ReqSearch q "track" N in
  let (r, s) := respond (provider w) req in
  match (results <- r ;; search_payload "tracks" search_track_record results) with
  | Ok v => (Ok v, after w s req r [])
  | Raise e => (Raise e, after w s req r [LineExn "Spotify search error: " e])
  end.
Proof.
  unfold search_tracks, try_except, bind, call, lift, ret, raise, print,
    search_payload, after.
  destruct (respond _ _) as [[results|e] s]; simpl; [|reflexivity].
  destruct (getitem results "tracks") as [t|e]; simpl; [|reflexivity].
  destruct (getitem t "items") as [items|e]; simpl; [|reflexivity].
  destruct (iter items) as [l|e]; simpl; [|reflexivity].
  destruct (for_append _ l []) as [rs|e]; simpl; [|reflexivity].
  now rewrite app_nil_r.
Qed.

Lemma search_albums_run q N w :
  search_albums respond q N w =
  let req := ReqSearch q "album" N in
  let (r, s) := respond (provider w) req in
  match (results <- r ;; search_payload "albums" search_album_record results) with
  | Ok v => (Ok v, after w s req r [])
  | Raise e => (Raise e, after w s req r [LineExn "Spotify album search error: " e])
  end.
Proof.
  unfold search_albums, try_except, bind, call, lift, ret, raise, print,
    search_payload, after.
  destruct (respond _ _) as [[results|e] s]; simpl; [|reflexivity].
  destruct (getitem results "albums") as [t|e]; simpl; [|reflexivity].
  destruct (getitem t "items") as [items|e]; simpl; [|reflexivity].
  destruct (iter items) as [l|e]; simpl; [|reflexivity].
  destruct (for_append _ l []) as [rs|e]; simpl; [|reflexivity].
  now rewrite app_nil_r.
Qed.

Lemma get_track_details_run track_id w :
  get_track_details respond track_id w =
  let req := ReqTrack track_id in
  let (r, s) := respond (provider w) req in
  match (track <- r ;; track_details_record track) with
  | Ok v => (Ok v, after w s req r [])
  | Raise e => (Ok VNone, after w s req r [LineExn "Error fetching track details: " e])
  end.
Proof.
  unfold get_track_details, try_except, bind, call, lift, ret, print, after.
  destruct (respond _ _) as [[track|e] s]; simpl; [|reflexivity].
  destruct (track_details_record track) as [v|e]; simpl; [|reflexivity].
  now rewrite app_nil_r.
Qed.

Lemma search_payload_inv kind record results v :
  search_payload kind record results = Ok v ->
  exists t items l rs,
    getitem results kind = Ok t
    /\ getitem t "items" = Ok items
    /\ iter items = Ok l
    /\ v = VList rs
    /\ Forall2 (fun item x => record item = Ok x) l rs.
Proof.
  unfold search_payload. intros H.
  destruct (getitem results kind) as [t|e] eqn:H1; simpl in H; [|discriminate].
  destruct (getitem t "items") as [items|e] eqn:H2; simpl in H; [|discriminate].
  destruct (iter items) as [l|e] eqn:H3; simpl in H; [|discriminate].
  destruct (for_append record l []) as [rs|e] eqn:Hf; simpl in H; [|discriminate].
  apply for_append_inv in Hf. destruct Hf as (rs' & -> & Hall).
  inversion H. exists t, items, l, rs'. repeat split; auto.
Qed.

Lemma pagination_clause album id offset tracks w b
    (H : page_turn respond album id offset tracks w = b) :
  pagination_unfold_clause_1 PS respond album id offset tracks w (exist _ b H) =
  match b with
  | (Raise e, w1) => (Raise e, w1)
  | (Ok (Break t1), w1) => (Ok t1, w1)
  | (Ok (Continue o1 t1), w1) => pagination respond album id o1 t1 w1
  end.
Proof. destruct b as [[[t|o t]|e] w1]; reflexivity. Qed.

(** One turn of the loop, then the rest of it. *)
Lemma pagination_step album id offset tracks w :
  pagination respond album id offset tracks w =
  match page_turn respond album id offset tracks w with
  | (Raise e, w1) => (Raise e, w1)
  | (Ok (Break t1), w1) => (Ok t1, w1)
  | (Ok (Continue o1 t1), w1) => pagination respond album id o1 t1 w1
  end.
Proof.
  rewrite pagination_equation_1. unfold inspect. apply pagination_clause.
Qed.

Lemma extends_refl album tracks : extends album tracks tracks.
Proof. exists []. now rewrite app_nil_r. Qed.

Lemma extends_trans album t1 t2 t3 :
  extends album t1 t2 -> extends album t2 t3 -> extends album t1 t3.
Proof.
  intros (e1 & -> & H1) (e2 & -> & H2). exists (e1 ++ e2).
  rewrite app_assoc. split; [reflexivity|]. apply Forall_app. auto.
Qed.

Lemma for_append_extends album l tracks t :
  for_append (album_track_record album) l tracks = Ok t ->
  extends album tracks t.
Proof.
  intros H. apply for_append_inv in H. destruct H as (rs & -> & H).
  exists rs. split; [reflexivity|].
  induction H; constructor; eauto.
Qed.

(** What a turn of the loop does to the world, by its outcome. *)
Lemma page_turn_inv album id offset tracks w r w' :
  page_turn respond album id offset tracks w = (r, w') ->
  let req := ReqAlbumTracks id 50 offset in
  exists res,
    respond (provider w) req = (res, provider w')
    /\ trace w' = trace w ++ [(req, res)]
    /\ (forall e, res = Raise e -> r = Raise e)
    /\ match r with
       | Raise _ => stdout w' = stdout w
       | Ok (Continue o t) =>
           o = offset + 50 /\ o < 1000 /\ stdout w' = stdout w
           /\ extends album tracks t
       | Ok (Break t) =>
           extends album tracks t
           /\ (stdout w' = stdout w
               \/ stdout w' = stdout w ++ [ceiling_warning id]
                  /\ 1000 <= offset + 50)
       end.
Proof.
  unfold page_turn, bind, call, lift, ret, print. simpl.
  destruct (respond (provider w) (ReqAlbumTracks id 50 offset)) as [res s] eqn:Hres.
  intros H. exists res.
  destruct res as [next_page|e]; simpl in H.
  2:{ inversion H; subst; simpl. repeat split; auto. intros ? [= ->]. reflexivity. }
  assert (Hno : forall e, Ok next_page = Raise e -> r = Raise e) by discriminate.
  destruct (getitem next_page "items") as [items|e]; simpl in H;
    [|inversion H; subst; simpl; auto].
  destruct (truthy items); simpl in H;
    [|inversion H; subst; simpl; repeat split; auto using extends_refl].
  destruct (iter items) as [l|e]; simpl in H; [|inversion H; subst; simpl; auto].
  destruct (for_append _ l tracks) as [t|e] eqn:Ht; simpl in H;
    [|inversion H; subst; simpl; auto].
  apply for_append_extends in Ht.
  destruct (get next_page "next" VNone) as [next|e]; simpl in H;
    [|inversion H; subst; simpl; auto].
  destruct (truthy next); simpl in H;
    [|inversion H; subst; simpl; repeat split; auto].
  destruct (1000 <=? offset + 50) eqn:Hc; simpl in H; inversion H; subst; simpl.
  - apply Z.leb_le in Hc. repeat split; auto.
  - apply Z.leb_gt in Hc. repeat split; auto.
Qed.

(** What the whole loop does to the world, by its outcome: the requests
    it issued, where an exception came from, what it collected and
    whether it printed the warning. *)
Lemma pagination_inv album id : forall n offset tracks w r w',
  (headroom offset < n)%nat ->
  pagination respond album id offset tracks w = (r, w') ->
  exists pages,
    trace w' = trace w ++ pages
    /\ Forall (fun ev => exists o, fst ev = ReqAlbumTracks id 50 o
                                  /\ (o = offset \/ offset < o < 1000)) pages
    /\ (forall req e, In (req, Raise e) pages -> r = Raise e)
    /\ match r with
       | Raise _ => stdout w' = stdout w
       | Ok t =>
           extends album tracks t
           /\ (stdout w' = stdout w
               \/ stdout w' = stdout w ++ [ceiling_warning id])
       end.
Proof.
  induction n as [|n IH]; intros offset tracks w r w' Hn H; [lia|].
  rewrite pagination_step in H.
  destruct (page_turn respond album id offset tracks w)
    as [[[t|o t]|e] w1] eqn:Hp;
    apply page_turn_inv in Hp; destruct Hp as (res & _ & Htr & Hraise & Hr).
  - inversion H; subst. exists [(ReqAlbumTracks id 50 offset, res)].
    split; [exact Htr|]. split; [repeat constructor; simpl; eauto|].
    split.
    + intros req e [[= <- ->]|[]]. discriminate (Hraise e eq_refl).
    + destruct Hr as (Hext & [Hs | [Hs _]]); auto.
  - destruct Hr as (-> & Hlt & Hs & Hext).
    assert (Hn' : (headroom (offset + 50) < n)%nat) by (unfold headroom in *; lia).
    destruct (IH _ _ _ _ _ Hn' H) as (pages & Htr' & Hall & Hraise' & Hr').
    exists ((ReqAlbumTracks id 50 offset, res) :: pages). split.
    { rewrite Htr', Htr, <- app_assoc. reflexivity. }
    split.
    { constructor; [simpl; eauto|].
      eapply Forall_impl; [|exact Hall]. intros ev (o & Ho & Hc).
      exists o. split; [exact Ho|]. right. lia. }
    split.
    { intros req e [[= <- ->]|Hin]; [discriminate (Hraise e eq_refl)|eauto]. }
    destruct r as [t'|e]; rewrite <- Hs; [|exact Hr'].
    destruct Hr' as [Hext' Hw]. split; [eapply extends_trans; eauto | exact Hw].
  - inversion H; subst. exists [(ReqAlbumTracks id 50 offset, res)].
    split; [exact Htr|]. split; [repeat constructor; simpl; eauto|].
    split; [|exact Hr].
    intros req e' [[= <- ->]|[]]. pose proof (Hraise e' eq_refl) as He.
    inversion He. reflexivity.
Qed.

(** What [get_album_details] does, by its outcome. *)
Lemma get_album_details_inv id w r w' :
  get_album_details respond id w = (r, w') ->
  exists ra,
    fst (respond (provider w) (ReqAlbum id)) = ra /\
  exists pages,
    trace w' = trace w ++ (ReqAlbum id, ra) :: pages
    /\ Forall (fun ev => exists o album l,
                 fst ev = ReqAlbumTracks id 50 o
                 /\ ra = Ok album
                 /\ first_page album = Ok l
                 /\ (o = Z.of_nat (length l)
                     \/ Z.of_nat (length l) < o < 1000)) pages
    /\ (forall req e, In (req, Raise e) ((ReqAlbum id, ra) :: pages) ->
          r = Ok VNone
          /\ stdout w' = stdout w ++ [LineExn "Error fetching album details: " e])
    /\ exists v, r = Ok v
        /\ (v = VNone
            \/ exists album tracks,
                 ra = Ok album
                 /\ album_details_record album tracks = Ok v
                 /\ Forall (fun x => exists item,
                               album_track_record album item = Ok x) tracks).
Proof.
  unfold get_album_details, try_except, bind, call, lift, ret, print.
  destruct (respond (provider w) (ReqAlbum id)) as [ra s]. simpl.
  intros H. exists ra. split; [reflexivity|].
  assert (Hnone : forall e,
    (r, w') = (Ok VNone, mkWorld s (trace w ++ [(ReqAlbum id, ra)])
                 (stdout w ++ [LineExn "Error fetching album details: " e])) ->
    (forall req e', In (req, Raise e') [(ReqAlbum id, ra)] -> e' = e) ->
    exists pages, trace w' = trace w ++ (ReqAlbum id, ra) :: pages
    /\ Forall (fun ev => exists o album l,
                 fst ev = ReqAlbumTracks id 50 o
                 /\ ra = Ok album
                 /\ first_page album = Ok l
                 /\ (o = Z.of_nat (length l)
                     \/ Z.of_nat (length l) < o < 1000)) pages
    /\ (forall req e, In (req, Raise e) ((ReqAlbum id, ra) :: pages) ->
          r = Ok VNone
          /\ stdout w' = stdout w ++ [LineExn "Error fetching album details: " e])
    /\ exists v, r = Ok v
        /\ (v = VNone
            \/ exists album tracks,
                 ra = Ok album
                 /\ album_details_record album tracks = Ok v
                 /\ Forall (fun x => exists item,
                               album_track_record album item = Ok x) tracks)).
  { intros e He Hin. inversion He; subst. exists []. simpl.
    split; [reflexivity|]. split; [constructor|]. split; [|eauto].
    intros req e' Hin'. rewrite (Hin req e'); auto. }
  destruct ra as [album|e]; simpl in H.
  2:{ symmetry in H. apply (Hnone e H). intros req e' [[= _ ->]|[]]. reflexivity. }
  assert (Hno : forall e (req : request) e',
            In (req, Raise e') [(ReqAlbum id, Ok album)] -> e' = e).
  { intros e req e' [[=]|[]]. }
  change (t <- getitem album "tracks" ;; i <- getitem t "items" ;; iter i)
    with (first_page album) in H.
  destruct (first_page album) as [l|e] eqn:Hl; simpl in H.
  2:{ symmetry in H. exact (Hnone e H (Hno e)). }
  destruct (for_append (album_track_record album) l []) as [t|e] eqn:Hf; simpl in H.
  2:{ symmetry in H. exact (Hnone e H (Hno e)). }
  pose proof (for_append_extends _ _ _ _ Hf) as Hext.
  apply for_append_inv in Hf. destruct Hf as (rs & Hrs & Hall).
  simpl in Hrs. subst t.
  apply Forall2_length_eq in Hall.
  destruct (getitem album "tracks") as [tr|e]; simpl in H;
    [|symmetry in H; exact (Hnone e H (Hno e))].
  destruct (get tr "next" VNone) as [next|e]; simpl in H;
    [|symmetry in H; exact (Hnone e H (Hno e))].
  destruct (truthy next).
  - destruct (pagination respond album id (Z.of_nat (length rs)) rs _)
      as [rp wp] eqn:Hp.
    apply (pagination_inv _ _ (S (headroom (Z.of_nat (length rs))))) in Hp;
      [|lia].
    destruct Hp as (pages & Htr & Hoff & Hraise & Hout). simpl in Htr, Hout.
    exists pages.
    assert (Hpages : Forall (fun ev => exists o album0 l0,
                 fst ev = ReqAlbumTracks id 50 o
                 /\ Ok album = Ok album0
                 /\ first_page album0 = Ok l0
                 /\ (o = Z.of_nat (length l0)
                     \/ Z.of_nat (length l0) < o < 1000)) pages).
    { eapply Forall_impl; [|exact Hoff]. intros ev (o & Ho & Hc).
      exists o, album, l. rewrite Hall. auto. }
    destruct rp as [t|e]; simpl in H.
    + destruct Hout as [Hext' Hw].
      assert (Hrec : Forall (fun x => exists item,
                       album_track_record album item = Ok x) t).
      { destruct Hext as (e1 & -> & H1). destruct Hext' as (e2 & -> & H2).
        simpl. apply Forall_app. auto. }
      destruct (album_details_record album t) as [v|e] eqn:Hv; simpl in H;
        inversion H; subst; simpl.
      * split; [rewrite Htr, <- app_assoc; reflexivity|].
        split; [exact Hpages|]. split.
        { intros req e [[=]|Hin]. discriminate (Hraise _ _ Hin). }
        exists v. split; [reflexivity|]. right. exists album, t. auto.
      * split; [rewrite Htr, <- app_assoc; reflexivity|].
        split; [exact Hpages|]. split.
        { intros req e' [[=]|Hin]. discriminate (Hraise _ _ Hin). }
        eauto.
    + inversion H; subst; simpl.
      split; [rewrite Htr, <- app_assoc; reflexivity|].
      split; [exact Hpages|]. split.
      { intros req e' [[=]|Hin]. pose proof (Hraise _ _ Hin) as He.
        inversion He. subst. rewrite Hout. auto. }
      eauto.
  - simpl in H.
    destruct (album_details_record album rs) as [v|e] eqn:Hv; simpl in H.
    + inversion H; subst; simpl. exists [].
      split; [reflexivity|]. split; [constructor|]. split.
      { intros req e [[=]|[]]. }
      exists v. split; [reflexivity|]. right. exists album, rs.
      destruct Hext as (e1 & He1 & H1). simpl in He1. subst. auto.
    + symmetry in H. exact (Hnone e H (Hno e)).
Qed.

(** A turn of the loop on a page that arrives and reshapes well. *)
Lemma page_turn_run album id offset tracks w page s items l t next :
  respond (provider w) (ReqAlbumTracks id 50 offset) = (Ok page, s) ->
  getitem page "items" = Ok items ->
  truthy items = true ->
  iter items = Ok l ->
  for_append (album_track_record album) l tracks = Ok t ->
  get page "next" VNone = Ok next ->
  page_turn respond album id offset tracks w =
  let req := ReqAlbumTracks id 50 offset in
  if negb (truthy next) then (Ok (Break t), after w s req (Ok page) [])
  else if 1000 <=? offset + 50
       then (Ok (Break t), after w s req (Ok page) [ceiling_warning id])
       else (Ok (Continue (offset + 50) t), after w s req (Ok page) []).
Proof.
  intros Hr Hi Ht Hl Hf Hn.
  unfold page_turn, bind, call, lift, ret, print, after.
  rewrite Hr. simpl. rewrite Hi. simpl. rewrite Ht. simpl.
  rewrite Hl. simpl. rewrite Hf. simpl. rewrite Hn. simpl.
  rewrite app_nil_r.
  destruct (truthy next); simpl; [|reflexivity].
  destruct (1000 <=? offset + 50); reflexivity.
Qed.

(** [get_album_details] on an album that arrives and whose embedded
    tracks reshape well: the loop, if the album has a continuation link,
    then the record. *)
Lemma get_album_details_run album_id w album s l rs t next :
  respond (provider w) (ReqAlbum album_id) = (Ok album, s) ->
  first_page album = Ok l ->
  for_append (album_track_record album) l [] = Ok rs ->
  getitem album "tracks" = Ok t ->
  get t "next" VNone = Ok next ->
  get_album_details respond album_id w =
  let (r, w2) :=
    if truthy next
    then pagination respond album album_id (Z.of_nat (length rs)) rs
           (after w s (ReqAlbum album_id) (Ok album) [])
    else (Ok rs, after w s (ReqAlbum album_id) (Ok album) []) in
  match (tracks <- r ;; album_details_record album tracks) with
  | Ok v => (Ok v, w2)
  | Raise e =>
      (Ok VNone,
       mkWorld (provider w2) (trace w2)
         (stdout w2 ++ [LineExn "Error fetching album details: " e]))
  end.
Proof.
  intros Hr Hl Hf Ht Hn.
  unfold get_album_details, try_except, bind, call, lift, ret, print, after.
  rewrite Hr. simpl.
  change (t <- getitem album "tracks" ;; i <- getitem t "items" ;; iter i)
    with (first_page album).
  rewrite Hl. simpl. rewrite Hf. simpl. rewrite Ht. simpl. rewrite Hn. simpl.
  rewrite app_nil_r.
  destruct (truthy next).
  - destruct (pagination _ _ _ _ _ _) as [[tr|e] w2]; simpl; [|reflexivity].
    destruct (album_details_record album tr); reflexivity.
  - simpl. destruct (album_details_record album rs); reflexivity.
Qed.

Lemma search_tracks_ok_inv q N w v w' :
  search_tracks respond q N w = (Ok v, w') ->
  exists results t items l tracks,
    fst (respond (provider w) (ReqSearch q "track" N)) = Ok results
    /\ getitem results "tracks" = Ok t
    /\ getitem t "items" = Ok items
    /\ iter items = Ok l
    /\ v = VList tracks
    /\ Forall2 (fun item r => search_track_record item = Ok r) l tracks.
Proof.
  rewrite search_tracks_run. cbv zeta.
  destruct (respond _ _) as [[results|e] s]; simpl; [|discriminate].
  destruct (search_payload _ _ results) as [v0|e] eqn:Hp; [|discriminate].
  intros [= <- _]. apply search_payload_inv in Hp.
  destruct Hp as (t & items & l & rs & ? & ? & ? & ? & ?).
  exists results, t, items, l, rs. repeat split; auto.
Qed.

Lemma search_albums_ok_inv q N w v w' :
  search_albums respond q N w = (Ok v, w') ->
  exists results t items l albums,
    fst (respond (provider w) (ReqSearch q "album" N)) = Ok results
    /\ getitem results "albums" = Ok t
    /\ getitem t "items" = Ok items
    /\ iter items = Ok l
    /\ v = VList albums
    /\ Forall2 (fun item r => search_album_record item = Ok r) l albums.
Proof.
  rewrite search_albums_run. cbv zeta.
  destruct (respond _ _) as [[results|e] s]; simpl; [|discriminate].
  destruct (search_payload _ _ results) as [v0|e] eqn:Hp; [|discriminate].
  intros [= <- _]. apply search_payload_inv in Hp.
  destruct Hp as (t & items & l & rs & ? & ? & ? & ? & ?).
  exists results, t, items, l, rs. repeat split; auto.
Qed.

Lemma get_track_details_ok_inv track_id w v w' :
  get_track_details respond track_id w = (Ok v, w') ->
  v <> VNone ->
  exists track,
    fst (respond (provider w) (ReqTrack track_id)) = Ok track
    /\ track_details_record track = Ok v.
Proof.
  rewrite get_track_details_run. cbv zeta.
  destruct (respond _ _) as [[track|e] s]; simpl.
  - destruct (track_details_record track) as [v0|e] eqn:Hr; intros [= <- _] Hv.
    + eauto.
    + congruence.
  - intros [= <- _] Hv. congruence.
Qed.

Lemma get_album_details_ok_inv album_id w v w' :
  get_album_details respond album_id w = (Ok v, w') ->
  v <> VNone ->
  exists album tracks,
    fst (respond (provider w) (ReqAlbum album_id)) = Ok album
    /\ album_details_record album tracks = Ok v
    /\ Forall (fun x => exists item, album_track_record album item = Ok x) tracks.
Proof.
  intros H Hv. apply get_album_details_inv in H.
  destruct H as (ra & Hra & pages & _ & _ & _ & v0 & [= <-] & [->|H]);
    [congruence|].
  destruct H as (album & tracks & -> & Hrec & Hall). eauto.
Qed.

End Runs.

(* ===================================================================== *)
(** ** The specification's claims *)
(* ===================================================================== *)

Section Claims.

Variable PS : Type.
Variable respond : PS -> request -> result value * PS.

(** C4.  Constructing the service with a missing ([None]) or empty client
    identifier or client secret raises the configuration error and leaves
    the world as it was: no provider call has been made.  With both
    credentials non-empty strings the construction returns the service. *)
Theorem init_requires_both_credentials (cid secret : value) (w : world PS) :
  ((cid = VNone \/ cid = VStr "" \/ secret = VNone \/ secret = VStr "") ->
   exists msg, __init__ cid secret w = (Raise (ValueError msg), w))
  /\ (forall a b,
        cid = VStr a -> secret = VStr b -> a <> "" -> b <> "" ->
        __init__ cid secret w = (Ok (mkService (mkClient cid secret)), w)).
Proof.
  unfold __init__, raise, ret. split.
  - intros [-> | [-> | [-> | ->]]]; simpl; try rewrite orb_true_r; eauto.
  - intros a b -> -> Ha Hb. simpl.
    apply String.eqb_neq in Ha, Hb. rewrite Ha, Hb. reflexivity.
Qed.

(** C8.  When the provider answers a track search of limit [N] with at
    most [N] items, [search_tracks] returns a list with exactly one record
    per item, in the provider's order, hence of length at most [N]; and it
    does return whenever every item can be reshaped. *)
Theorem search_tracks_one_record_per_item q N w results s t l :
  respond (provider w) (ReqSearch q "track" N) = (Ok results, s) ->
  getitem results "tracks" = Ok t ->
  getitem t "items" = Ok (VList l) ->
  Z.of_nat (length l) <= N ->
  (forall v w',
     search_tracks respond q N w = (Ok v, w') ->
     exists tracks,
       v = VList tracks
       /\ Z.of_nat (length tracks) <= N
       /\ Forall2 (fun item r => search_track_record item = Ok r) l tracks)
  /\ (forall tracks,
        Forall2 (fun item r => search_track_record item = Ok r) l tracks ->
        fst (search_tracks respond q N w) = Ok (VList tracks)).
Proof.
  intros Hr Ht Hi Hn. rewrite search_tracks_run. cbv zeta. rewrite Hr.
  unfold search_payload. simpl. rewrite Ht. simpl. rewrite Hi. simpl. split.
  - intros v w' H.
    destruct (for_append search_track_record l []) as [rs|e] eqn:Hf;
      simpl in H; [|discriminate].
    apply for_append_inv in Hf. destruct Hf as (rs' & -> & Hall).
    inversion H. exists rs'. simpl. repeat split; auto.
    rewrite <- (Forall2_length_eq _ _ _ Hall). exact Hn.
  - intros tracks Hall.
    rewrite (for_append_complete _ _ [] _ Hall). reflexivity.
Qed.

(** C3, as the code has it.  A record returned by [get_track_details]
    holds a track number, the provider's or 1 when the provider's track
    has none; the records returned by [search_tracks] hold no track
    number at all. *)
Theorem track_number_only_in_track_details :
  (forall track_id w v w',
     get_track_details respond track_id w = (Ok v, w') ->
     v <> VNone ->
     exists d,
       fst (respond (provider w) (ReqTrack track_id)) = Ok (VDict d)
       /\ getitem v "track_number"
          = Ok match dict_lookup "track_number" d with
               | Some n => n
               | None => VInt 1
               end)
  /\ (forall q N w tracks w',
        search_tracks respond q N w = (Ok (VList tracks), w') ->
        Forall (fun r => getitem r "track_number"
                         = Raise (KeyError (VStr "track_number"))) tracks).
Proof.
  split.
  - intros track_id w v w' H Hv.
    destruct (get_track_details_ok_inv _ _ _ _ _ _ H Hv) as (track & Hr & Hrec).
    destruct (track_details_record_dict _ _ Hrec) as [d ->].
    apply track_details_record_fields in Hrec.
    destruct Hrec as (_ & _ & Hn & _).
    exists d. split; [exact Hr|]. rewrite Hn. simpl.
    destruct (dict_lookup "track_number" d); reflexivity.
  - intros q N w tracks w' H. apply search_tracks_ok_inv in H.
    destruct H as (results & t & items & l & rs & _ & _ & _ & _ & [= ->] & Hall).
    induction Hall as [|item r l' rs' Hrec _ IH]; constructor; [|exact IH].
    apply search_track_record_fields in Hrec. tauto.
Qed.

Lemma logs_and_reraises_intro op req prefix payload w :
  op w = (let (r, s) := respond (provider w) req in
          match (results <- r ;; payload results) with
          | Ok v => (Ok v, after w s req r [])
          | Raise e => (Raise e, after w s req r [LineExn prefix e])
          end) ->
  logs_and_reraises respond op req prefix payload w.
Proof.
  intros H. unfold logs_and_reraises. rewrite H. clear H.
  destruct (respond (provider w) req) as [[results|e] s]; simpl.
  - split; [discriminate|].
    split; [intros ? ? e [= <- <-] ->; reflexivity|].
    split; [intros ? ? v [= <- <-] ->; reflexivity|].
    split.
    + intros (v & w' & H).
      destruct (payload results) as [v0|e] eqn:Hp; [|discriminate]. eauto.
    + intros (r0 & s0 & v & [= <- <-] & ->). eauto.
  - split; [intros ? ? [= <- <-]; reflexivity|].
    split; [discriminate|]. split; [discriminate|].
    split.
    + intros (v & w' & H). discriminate.
    + intros (r0 & s0 & v & H & _). discriminate.
Qed.

(** C5, as the code has it.  For every query and limit, [search_tracks]
    and [search_albums] make one provider call; an exception of that call
    is printed and raised again unchanged, and so is an exception raised
    while the answer is reshaped; the search returns normally exactly
    when the call succeeds and the reshaping raises nothing. *)
Theorem search_failures_are_logged_and_reraised q N w :
  logs_and_reraises respond (search_tracks respond q N) (ReqSearch q "track" N)
    "Spotify search error: " (search_payload "tracks" search_track_record) w
  /\ logs_and_reraises respond (search_albums respond q N) (ReqSearch q "album" N)
       "Spotify album search error: "
       (search_payload "albums" search_album_record) w.
Proof.
  split; apply logs_and_reraises_intro.
  - apply search_tracks_run.
  - apply search_albums_run.
Qed.

(** C6.  [get_track_details] and [get_album_details] never raise.  When
    the provider call of [get_track_details] raises, it prints the failure
    and returns [None]; when any provider call made by
    [get_album_details] raises, the album request or a page request, it
    prints that failure and returns [None]. *)
Theorem detail_failures_become_none :
  (forall track_id w, exists v w',
     get_track_details respond track_id w = (Ok v, w'))
  /\ (forall track_id w e s,
        respond (provider w) (ReqTrack track_id) = (Raise e, s) ->
        get_track_details respond track_id w
        = (Ok VNone, after w s (ReqTrack track_id) (Raise e)
                       [LineExn "Error fetching track details: " e]))
  /\ (forall album_id w, exists v w',
        get_album_details respond album_id w = (Ok v, w'))
  /\ (forall album_id w r w',
        get_album_details respond album_id w = (r, w') ->
        exists calls,
          trace w' = trace w ++ calls
          /\ forall req e,
               In (req, Raise e) calls ->
               r = Ok VNone
               /\ stdout w' = stdout w
                               ++ [LineExn "Error fetching album details: " e]).
Proof.
  split; [|split; [|split]].
  - intros track_id w. rewrite get_track_details_run. cbv zeta.
    destruct (respond _ _) as [r s].
    destruct (rbind r _); eauto.
  - intros track_id w e s H. rewrite get_track_details_run. cbv zeta.
    rewrite H. reflexivity.
  - intros album_id w.
    destruct (get_album_details respond album_id w) as [r w'] eqn:H.
    apply get_album_details_inv in H.
    destruct H as (ra & _ & pages & _ & _ & _ & v & -> & _). eauto.
  - intros album_id w r w' H. apply get_album_details_inv in H.
    destruct H as (ra & _ & pages & Htr & _ & Hraise & _).
    exists ((ReqAlbum album_id, ra) :: pages). auto.
Qed.

(** C7.  In every record the four operations produce, the album art is
    the URL of the first image of the provider's image list when the list
    is not empty and [None] when it is empty: the list of the track's
    album for a track search and a track lookup, of the album itself for
    an album search, and for an album lookup and each of its tracks. *)
Theorem album_art_is_first_image :
  (forall q N w v w',
     search_tracks respond q N w = (Ok v, w') ->
     exists results l tracks,
       fst (respond (provider w) (ReqSearch q "track" N)) = Ok results
       /\ served_items "tracks" results l
       /\ v = VList tracks
       /\ Forall2 (fun item r =>
                     forall a, getitem item "album" = Ok a -> art_from a r)
            l tracks)
  /\ (forall track_id w v w',
        get_track_details respond track_id w = (Ok v, w') ->
        v <> VNone ->
        exists track,
          fst (respond (provider w) (ReqTrack track_id)) = Ok track
          /\ forall a, getitem track "album" = Ok a -> art_from a v)
  /\ (forall q N w v w',
        search_albums respond q N w = (Ok v, w') ->
        exists results l albums,
          fst (respond (provider w) (ReqSearch q "album" N)) = Ok results
          /\ served_items "albums" results l
          /\ v = VList albums
          /\ Forall2 art_from l albums)
  /\ (forall album_id w v w',
        get_album_details respond album_id w = (Ok v, w') ->
        v <> VNone ->
        exists album tracks,
          fst (respond (provider w) (ReqAlbum album_id)) = Ok album
          /\ art_from album v
          /\ getitem v "tracks" = Ok (VList tracks)
          /\ Forall (art_from album) tracks).
Proof.
  split; [|split; [|split]].
  - intros q N w v w' H. apply search_tracks_ok_inv in H.
    destruct H as (results & t & items & l & rs & Hr & Ht & Hi & Hl & -> & Hall).
    exists results, l, rs. split; [exact Hr|].
    split; [exists t, items; auto|]. split; [reflexivity|].
    eapply Forall2_impl; [|exact Hall]. intros item r Hrec a Ha imgs Himgs.
    apply search_track_record_fields in Hrec.
    destruct Hrec as (_ & _ & Hart). eauto.
  - intros track_id w v w' H Hv.
    destruct (get_track_details_ok_inv _ _ _ _ _ _ H Hv) as (track & Hr & Hrec).
    exists track. split; [exact Hr|]. intros a Ha imgs Himgs.
    apply track_details_record_fields in Hrec.
    destruct Hrec as (_ & _ & _ & _ & Hart). eauto.
  - intros q N w v w' H. apply search_albums_ok_inv in H.
    destruct H as (results & t & items & l & rs & Hr & Ht & Hi & Hl & -> & Hall).
    exists results, l, rs. split; [exact Hr|].
    split; [exists t, items; auto|]. split; [reflexivity|].
    eapply Forall2_impl; [|exact Hall]. intros item r Hrec imgs Himgs.
    apply search_album_record_fields in Hrec.
    destruct Hrec as (_ & Hart). eauto.
  - intros album_id w v w' H Hv.
    destruct (get_album_details_ok_inv _ _ _ _ _ _ H Hv)
      as (album & tracks & Hr & Hrec & Hall).
    apply album_details_record_fields in Hrec.
    destruct Hrec as (_ & _ & Htracks & _ & n & i & a & d & Hsh & _ & _ & Ha & _).
    exists album, tracks. split; [exact Hr|]. split.
    { intros imgs Himgs. exists a. split; [exact Ha|].
      eapply shared_fields_art; eauto. }
    split; [exact Htracks|].
    eapply Forall_impl; [|exact Hall]. intros r [item Hitem] imgs Himgs.
    apply album_track_record_fields in Hitem.
    destruct Hitem as (_ & n' & i' & a' & d' & Hsh' & _ & _ & Ha' & _).
    exists a'. split; [exact Ha'|]. eapply shared_fields_art; eauto.
Qed.

(** C9.  Every track of the listing returned by [get_album_details],
    whether it came with the album or from a later page, holds the
    album's name, id, art and release date as the album record itself
    does. *)
Theorem album_tracks_share_album_fields album_id w v w' :
  get_album_details respond album_id w = (Ok v, w') ->
  v <> VNone ->
  exists tracks,
    getitem v "tracks" = Ok (VList tracks)
    /\ Forall (fun t =>
                 same_field t "album" v "name"
                 /\ same_field t "album_id" v "id"
                 /\ same_field t "album_art" v "album_art"
                 /\ same_field t "release_date" v "release_date") tracks.
Proof.
  intros H Hv.
  destruct (get_album_details_ok_inv _ _ _ _ _ _ H Hv)
    as (album & tracks & Hr & Hrec & Hall).
  apply album_details_record_fields in Hrec.
  destruct Hrec as (_ & _ & Htracks & _ & n & i & a & d & Hsh & Hn & Hi & Ha & Hd).
  exists tracks. split; [exact Htracks|].
  eapply Forall_impl; [|exact Hall]. intros r [item Hitem].
  apply album_track_record_fields in Hitem.
  destruct Hitem as (_ & n' & i' & a' & d' & Hsh' & Hn' & Hi' & Ha' & Hd').
  destruct (shared_fields_unique _ _ _ _ _ _ _ _ _ Hsh Hsh')
    as (<- & <- & <- & <-).
  unfold same_field. repeat split; eauto.
Qed.

(** C10, as the code has it.  In every record the four operations
    produce, the artist string is the comma-plus-space join of the record's
    artist list, and so is the album artist string of a track lookup for
    its album artist list.  The string is empty when the list is empty;
    an empty string comes from the empty list or from a single empty
    name. *)
Theorem artist_string_is_join_of_artists :
  (forall q N w tracks w',
     search_tracks respond q N w = (Ok (VList tracks), w') ->
     Forall (fun r => artist_is_join r "artists" "artist") tracks)
  /\ (forall track_id w v w',
        get_track_details respond track_id w = (Ok v, w') ->
        v <> VNone ->
        artist_is_join v "artists" "artist"
        /\ artist_is_join v "album_artists" "album_artist")
  /\ (forall q N w albums w',
        search_albums respond q N w = (Ok (VList albums), w') ->
        Forall (fun r => artist_is_join r "artists" "artist") albums)
  /\ (forall album_id w v w',
        get_album_details respond album_id w = (Ok v, w') ->
        v <> VNone ->
        artist_is_join v "artists" "artist"
        /\ exists tracks,
             getitem v "tracks" = Ok (VList tracks)
             /\ Forall (fun r => artist_is_join r "artists" "artist") tracks).
Proof.
  split; [|split; [|split]].
  - intros q N w tracks w' H. apply search_tracks_ok_inv in H.
    destruct H as (results & t & items & l & rs & _ & _ & _ & _ & [= ->] & Hall).
    induction Hall as [|item r l' rs' Hrec _ IH]; constructor; [|exact IH].
    apply artist_joined_is_join.
    apply search_track_record_fields in Hrec. tauto.
  - intros track_id w v w' H Hv.
    destruct (get_track_details_ok_inv _ _ _ _ _ _ H Hv) as (track & _ & Hrec).
    apply track_details_record_fields in Hrec.
    destruct Hrec as (H1 & H2 & _). split; apply artist_joined_is_join; auto.
  - intros q N w albums w' H. apply search_albums_ok_inv in H.
    destruct H as (results & t & items & l & rs & _ & _ & _ & _ & [= ->] & Hall).
    induction Hall as [|item r l' rs' Hrec _ IH]; constructor; [|exact IH].
    apply artist_joined_is_join.
    apply search_album_record_fields in Hrec. tauto.
  - intros album_id w v w' H Hv.
    destruct (get_album_details_ok_inv _ _ _ _ _ _ H Hv)
      as (album & tracks & _ & Hrec & Hall).
    apply album_details_record_fields in Hrec.
    destruct Hrec as (Hj & _ & Htracks & _).
    split; [apply artist_joined_is_join; exact Hj|].
    exists tracks. split; [exact Htracks|].
    eapply Forall_impl; [|exact Hall]. intros r [item Hitem].
    apply artist_joined_is_join.
    apply album_track_record_fields in Hitem. tauto.
Qed.

(** The loop on a provider that serves full pages of 50: from a point
    where the tracks before [offset] have been collected, it collects all
    the others, unless it is stopped at the ceiling. *)
Lemma pagination_complete album_id album all first :
  serves_album respond album_id album all first 50 ->
  forall n offset tracks w,
    (headroom (Z.of_nat offset) < n)%nat ->
    (offset < length all)%nat ->
    length tracks = offset ->
    exists t w',
      pagination respond album album_id (Z.of_nat offset) tracks w = (Ok t, w')
      /\ (length t = length all /\ stdout w' = stdout w
          \/ aborted_at_ceiling album_id w w').
Proof.
  intros (_ & _ & _ & Hpages & Hall & _).
  induction n as [|n IH]; intros offset tracks w Hn Hlt Hlen; [lia|].
  rewrite pagination_step.
  destruct (Hpages (provider w) offset) as (st' & page & next & Hr & Hi & Hnx & Ht).
  set (l := firstn 50 (skipn offset all)) in *.
  assert (Hl : length l = Nat.min 50 (length all - offset))
    by (unfold l; now rewrite length_firstn, length_skipn).
  destruct (for_append_total (album_track_record album) l tracks)
    as (rs & Hf & Hrs); [apply Forall_slice; exact Hall|].
  assert (Htruthy : truthy (VList l) = true)
    by (destruct l; [cbn [length] in Hl; lia | reflexivity]).
  rewrite (page_turn_run _ _ _ _ _ _ _ _ _ _ _ _ _ Hr Hi Htruthy eq_refl Hf Hnx).
  cbv zeta. rewrite Ht.
  destruct (Nat.ltb (offset + 50) (length all)) eqn:Hmore; simpl.
  - apply Nat.ltb_lt in Hmore.
    destruct (1000 <=? Z.of_nat offset + 50) eqn:Hc.
    + exists (tracks ++ rs), (after w st' (ReqAlbumTracks album_id 50 (Z.of_nat offset))
                               (Ok page) [ceiling_warning album_id]).
      split; [reflexivity|]. right. reflexivity.
    + apply Z.leb_gt in Hc.
      replace (Z.of_nat offset + 50) with (Z.of_nat (offset + 50)) by lia.
      destruct (IH (offset + 50)%nat (tracks ++ rs)
                  (after w st' (ReqAlbumTracks album_id 50 (Z.of_nat offset))
                     (Ok page) []))
        as (t & w' & Hp & Hres).
      * unfold headroom in *. lia.
      * exact Hmore.
      * rewrite length_app. lia.
      * exists t, w'. split; [exact Hp|].
        unfold aborted_at_ceiling in *. simpl in Hres.
        rewrite app_nil_r in Hres. exact Hres.
  - apply Nat.ltb_ge in Hmore.
    exists (tracks ++ rs), (after w st' (ReqAlbumTracks album_id 50 (Z.of_nat offset))
                             (Ok page) []).
    split; [reflexivity|]. left. simpl. rewrite app_nil_r, length_app.
    split; [lia | reflexivity].
Qed.

(** C1, as the code has it.  Let the provider hold an album of more than
    50 tracks, declare their number as the total, and answer every page
    request with the next 50 tracks, or with all that remain when they
    are fewer, giving a continuation link exactly while tracks remain.
    Unless the loop is stopped at the ceiling, [get_album_details] returns
    a record whose listing has as many tracks as the declared total. *)
Theorem album_listing_is_complete album_id album all first w :
  (50 < length all)%nat ->
  serves_album respond album_id album all first 50 ->
  ~ aborted_at_ceiling album_id w (snd (get_album_details respond album_id w)) ->
  exists v tracks,
    fst (get_album_details respond album_id w) = Ok v
    /\ getitem v "total_tracks" = Ok (VInt (Z.of_nat (length all)))
    /\ getitem v "tracks" = Ok (VList tracks)
    /\ length tracks = length all.
Proof.
  intros Hbig Hserves.
  pose proof Hserves as (Halbum & Htotal & (t & next & Ht & Hi & Hnx & Htr)
                         & _ & Hall & Hrec).
  destruct (Halbum (provider w)) as [st' Hr].
  assert (Hl : first_page album = Ok (firstn first all))
    by (unfold first_page; rewrite Ht; simpl; rewrite Hi; reflexivity).
  destruct (for_append_total (album_track_record album) (firstn first all) [])
    as (rs & Hf & Hrs).
  { rewrite <- (firstn_skipn first all) in Hall. apply Forall_app in Hall. tauto. }
  simpl in Hf. rewrite length_firstn in Hrs.
  rewrite (get_album_details_run _ _ _ _ _ _ _ _ _ _ Hr Hl Hf Ht Hnx).
  rewrite Htr.
  assert (Hdone : forall tracks (w2 : world PS),
    length tracks = length all ->
    exists v tracks0,
      fst (match (tr <- Ok tracks ;; album_details_record album tr) with
           | Ok v => (Ok v, w2)
           | Raise e =>
               (Ok VNone,
                mkWorld (provider w2) (trace w2)
                  (stdout w2 ++ [LineExn "Error fetching album details: " e]))
           end) = Ok v
      /\ getitem v "total_tracks" = Ok (VInt (Z.of_nat (length all)))
      /\ getitem v "tracks" = Ok (VList tracks0)
      /\ length tracks0 = length all).
  { intros tracks w2 Hlen. simpl. destruct (Hrec tracks) as [v Hv].
    rewrite Hv. simpl. apply album_details_record_fields in Hv.
    destruct Hv as (_ & Htot & Htracks & _).
    exists v, tracks. rewrite Htot, Htotal. auto. }
  destruct (Nat.ltb first (length all)) eqn:Hmore.
  - apply Nat.ltb_lt in Hmore.
    destruct (pagination_complete _ _ _ _ Hserves
                (S (headroom (Z.of_nat (length rs)))) (length rs) rs
                (after w st' (ReqAlbum album_id) (Ok album) []))
      as (tr & w2 & Hp & Hres); [lia | lia | reflexivity |].
    rewrite Hp. intros Hno. destruct Hres as [[Hlen _] | Hab].
    + apply Hdone. exact Hlen.
    + exfalso. apply Hno. simpl. destruct (Hrec tr) as [v Hv]. rewrite Hv.
      simpl. unfold aborted_at_ceiling in *. simpl in Hab.
      rewrite app_nil_r in Hab. exact Hab.
  - apply Nat.ltb_ge in Hmore. intros _. apply Hdone. lia.
Qed.

(** The loop on a provider that never runs out of pages: it ends with
    the warning, and its last request is within 50 of the ceiling. *)
Lemma pagination_endless album_id album :
  endless_pages respond album_id album ->
  forall n offset tracks w,
    (headroom offset < n)%nat ->
    exists t w' pages o_last r_last,
      pagination respond album album_id offset tracks w = (Ok t, w')
      /\ aborted_at_ceiling album_id w w'
      /\ trace w' = trace w ++ pages
                     ++ [(ReqAlbumTracks album_id 50 o_last, r_last)]
      /\ 1000 <= o_last + 50.
Proof.
  intros Hendless.
  induction n as [|n IH]; intros offset tracks w Hn; [lia|].
  rewrite pagination_step.
  destruct (Hendless (provider w) offset)
    as (st' & page & items & l & next & Hr & Hi & Ht & Hl & Hall & Hnx & Hmore).
  destruct (for_append_total (album_track_record album) l tracks Hall)
    as (rs & Hf & _).
  rewrite (page_turn_run _ _ _ _ _ _ _ _ _ _ _ _ _ Hr Hi Ht Hl Hf Hnx).
  cbv zeta. rewrite Hmore. simpl.
  destruct (1000 <=? offset + 50) eqn:Hc.
  - apply Z.leb_le in Hc.
    exists (tracks ++ rs),
      (after w st' (ReqAlbumTracks album_id 50 offset) (Ok page)
         [ceiling_warning album_id]),
      [], offset, (Ok page).
    repeat split; auto.
  - apply Z.leb_gt in Hc.
    destruct (IH (offset + 50) (tracks ++ rs)
                (after w st' (ReqAlbumTracks album_id 50 offset) (Ok page) []))
      as (t & w' & pages & o & r & Hp & Hab & Htr & Ho);
      [unfold headroom in *; lia|].
    exists t, w', ((ReqAlbumTracks album_id 50 offset, Ok page) :: pages), o, r.
    split; [exact Hp|]. unfold aborted_at_ceiling in *. simpl in Hab, Htr.
    rewrite app_nil_r in Hab. split; [exact Hab|]. split; [|exact Ho].
    rewrite Htr, <- app_assoc. reflexivity.
Qed.

(** C2, as the code has it.  Whatever the provider does, every page
    request of [get_album_details] asks for 50 tracks at an offset that is
    below 1000 or is the offset of the first request, the number of tracks
    embedded in the album payload; so no request has an offset of 1000 or
    more when fewer than 1000 tracks are embedded.  And with a provider
    that answers every page request with a non-empty page of tracks and
    a continuation link, the operation returns the album record after
    printing the warning, its last request within 50 of the ceiling. *)
Theorem pagination_stops_at_ceiling album_id w :
  (exists ra pages,
     fst (respond (provider w) (ReqAlbum album_id)) = ra
     /\ trace (snd (get_album_details respond album_id w))
        = trace w ++ (ReqAlbum album_id, ra) :: pages
     /\ Forall (fun ev => exists o embedded,
                  fst ev = ReqAlbumTracks album_id 50 o
                  /\ (exists album, ra = Ok album
                                     /\ first_page album = Ok embedded)
                  /\ (o = Z.of_nat (length embedded)
                      \/ Z.of_nat (length embedded) < o < 1000)) pages)
  /\ (forall album st l t next,
        respond (provider w) (ReqAlbum album_id) = (Ok album, st) ->
        first_page album = Ok l ->
        Forall (fun item => exists x, album_track_record album item = Ok x) l ->
        getitem album "tracks" = Ok t ->
        get t "next" VNone = Ok next ->
        truthy next = true ->
        (forall tracks, exists v, album_details_record album tracks = Ok v) ->
        endless_pages respond album_id album ->
        exists v w',
          get_album_details respond album_id w = (Ok v, w')
          /\ v <> VNone
          /\ aborted_at_ceiling album_id w w'
          /\ exists pages o_last r_last,
               trace w' = trace w ++ (ReqAlbum album_id, Ok album) :: pages
                            ++ [(ReqAlbumTracks album_id 50 o_last, r_last)]
               /\ 1000 <= o_last + 50).
Proof.
  split.
  - destruct (get_album_details respond album_id w) as [r w'] eqn:H.
    apply get_album_details_inv in H.
    destruct H as (ra & Hra & pages & Htr & Hall & _).
    exists ra, pages. split; [exact Hra|]. split; [exact Htr|].
    eapply Forall_impl; [|exact Hall].
    intros ev (o & album & l & Ho & Ha & Hl & Hc). exists o, l. eauto.
  - intros album st l t next Hr Hl Hall Ht Hnx Hmore Hrec Hendless.
    destruct (for_append_total (album_track_record album) l [] Hall)
      as (rs & Hf & _).
    rewrite (get_album_details_run _ _ _ _ _ _ _ _ _ _ Hr Hl Hf Ht Hnx).
    rewrite Hmore.
    destruct (pagination_endless _ _ Hendless
                (S (headroom (Z.of_nat (length ([] ++ rs))))) 
                (Z.of_nat (length ([] ++ rs))) ([] ++ rs)
                (after w st (ReqAlbum album_id) (Ok album) []))
      as (tr & w' & pages & o & r & Hp & Hab & Htr & Ho); [lia|].
    rewrite Hp. simpl. destruct (Hrec tr) as [v Hv]. rewrite Hv.
    exists v, w'. split; [reflexivity|].
    split; [apply album_details_record_fields in Hv; tauto|].
    unfold aborted_at_ceiling in *. simpl in Hab, Htr.
    rewrite app_nil_r in Hab. split; [exact Hab|].
    exists pages, o, r. split; [|exact Ho].
    rewrite Htr, <- app_assoc. reflexivity.
Qed.

End Claims.

(* ===================================================================== *)
(** ** The claims on the sample providers *)
(* ===================================================================== *)

Lemma track_items_reshape total first n :
  Forall (fun item => exists x,
            album_track_record (album_obj total first) item = Ok x)
    (track_items n).
Proof.
  apply Forall_forall. intros item Hin. unfold track_items in Hin.
  apply in_map_iff in Hin. destruct Hin as (k & <- & _).
  eexists. reflexivity.
Qed.

Lemma embedded_items_reshape total first :
  Forall (fun item => exists x,
            album_track_record (album_obj total first) item = Ok x)
    (firstn first (track_items total)).
Proof.
  exact (Forall_slice _ first 0%nat _ (track_items_reshape total first total)).
Qed.

Lemma track_items_length n : length (track_items n) = n.
Proof. unfold track_items. now rewrite length_map, length_seq. Qed.

(** The sample catalog is a provider in the sense of [serves_album], with
    its cap as the page size. *)
Lemma catalog_serves album_id total first cap :
  (cap <= 50)%nat ->
  serves_album (catalog total first cap) album_id (album_obj total first)
    (track_items total) first cap.
Proof.
  intros Hcap. unfold serves_album. rewrite track_items_length.
  split; [intros st; exists st; reflexivity|].
  split; [reflexivity|].
  split.
  { exists (page total 0 first),
      (if Nat.ltb (0 + first) total then VStr "https://api/next" else VNone).
    repeat split. simpl. destruct (Nat.ltb first total); reflexivity. }
  split.
  { intros st o. exists st. unfold catalog. rewrite Nat2Z.id.
    replace (Nat.min (Z.to_nat 50) cap) with cap
      by (change (Z.to_nat 50) with 50%nat; lia).
    exists (page total o cap),
      (if Nat.ltb (o + cap) total then VStr "https://api/next" else VNone).
    repeat split. destruct (Nat.ltb (o + cap) total); reflexivity. }
  split; [apply track_items_reshape|].
  intros tracks. eexists. reflexivity.
Qed.

Lemma endless_never_ends album_id total first :
  endless_pages endless album_id (album_obj total first).
Proof.
  intros st o. exists st. do 4 eexists.
  split; [reflexivity|]. split; [reflexivity|]. split; [reflexivity|].
  split; [reflexivity|]. split; [apply (track_items_reshape total first 50)|].
  split; reflexivity.
Qed.

(** C1 on a catalog of 120 tracks served in full pages. *)
Lemma album_listing_is_complete_witness :
  exists v tracks,
    fst (get_album_details (catalog 120 50 50) "a" (world0 tt)) = Ok v
    /\ getitem v "total_tracks" = Ok (VInt (Z.of_nat (length (track_items 120))))
    /\ getitem v "tracks" = Ok (VList tracks)
    /\ length tracks = length (track_items 120).
Proof.
  apply (album_listing_is_complete unit (catalog 120 50 50) "a"
           (album_obj 120 50) (track_items 120) 50 (world0 tt)).
  - rewrite track_items_length. lia.
  - apply catalog_serves. lia.
  - intros H. vm_compute in H. discriminate H.
Defined.

(** C1 fails on a catalog of 100 tracks served in pages of 30: the loop
    asks at 30 and at 80, and the tracks from 60 to 79 are never seen. *)
Lemma short_pages_lose_tracks : ~ pages_of_at_most_50_give_all_tracks.
Proof.
  intros H.
  specialize (H unit (catalog 100 30 30) "a" (album_obj 100 30)
                (track_items 100) 30%nat 30%nat (world0 tt)).
  assert (Hrun : listing_length
                   (fst (get_album_details (catalog 100 30 30) "a" (world0 tt)))
                 = Some 80%nat) by (vm_compute; reflexivity).
  rewrite Hrun, track_items_length in H.
  assert (Hfalse : Some 80%nat = Some 100%nat).
  { apply H; try lia.
    - apply catalog_serves. lia.
    - intros Hab. vm_compute in Hab. discriminate Hab. }
  discriminate Hfalse.
Qed.

(** C2 on the provider that never runs out of pages. *)
Lemma pagination_stops_at_ceiling_witness :
  exists v w',
    get_album_details endless "a" (world0 tt) = (Ok v, w')
    /\ v <> VNone
    /\ aborted_at_ceiling "a" (world0 tt) w'
    /\ exists pages o_last r_last,
         trace w' = trace (world0 tt)
                    ++ (ReqAlbum "a", Ok (album_obj 60 50)) :: pages
                    ++ [(ReqAlbumTracks "a" 50 o_last, r_last)]
         /\ 1000 <= o_last + 50.
Proof.
  apply (proj2 (pagination_stops_at_ceiling unit endless "a" (world0 tt))
           (album_obj 60 50) tt (firstn 50 (track_items 60))
           (page 60 0 50) (VStr "https://api/next")).
  - reflexivity.
  - reflexivity.
  - apply embedded_items_reshape.
  - reflexivity.
  - reflexivity.
  - reflexivity.
  - intros tracks. eexists. reflexivity.
  - apply endless_never_ends.
Defined.

(** C2 fails on a catalog that embeds 1000 tracks in the album payload:
    the first page request is at offset 1000. *)
Lemma first_request_can_pass_ceiling : ~ page_offsets_below_ceiling.
Proof.
  intros H.
  specialize (H unit (catalog 1200 1000 50) tt "a" "a" 50 1000
                (Ok (page 1200 1000 50))).
  assert (Hlt : 1000 < 1000); [|lia].
  apply H. vm_compute. right. left. reflexivity.
Qed.

(** C3 on the sample catalog: the looked-up track is the seventh of its
    album and the record says so; the records of a search say nothing. *)
Lemma track_number_only_in_track_details_witness :
  (exists d,
     fst (catalog 12 12 50 tt (ReqTrack "t")) = Ok (VDict d)
     /\ getitem (full_track_record_sample) "track_number"
        = Ok match dict_lookup "track_number" d with
             | Some n => n
             | None => VInt 1
             end)
  /\ Forall (fun r => getitem r "track_number"
                      = Raise (KeyError (VStr "track_number")))
       (search_tracks_sample).
Proof.
  split.
  - apply (proj1 (track_number_only_in_track_details unit (catalog 12 12 50))
             "t" (world0 tt) full_track_record_sample
             (snd (get_track_details (catalog 12 12 50) "t" (world0 tt)))).
    + reflexivity.
    + discriminate.
  - apply (proj2 (track_number_only_in_track_details unit (catalog 12 12 50))
             "song" 20 (world0 tt) search_tracks_sample
             (snd (search_tracks (catalog 12 12 50) "song" 20 (world0 tt)))).
    reflexivity.
Defined.

(** C3 fails on the sample catalog: the tracks it finds have a track
    number, the records of the search have none. *)
Lemma search_records_lack_track_number : ~ search_tracks_carry_track_number.
Proof.
  intros H.
  specialize (H unit (catalog 12 12 50) "song" 20 (world0 tt)
                search_tracks_sample
                (snd (search_tracks (catalog 12 12 50) "song" 20 (world0 tt)))
                eq_refl).
  inversion H as [|r rest [n Hn] _]. discriminate Hn.
Qed.

(** C4 with an empty secret, and with both credentials. *)
Lemma init_requires_both_credentials_witness :
  (exists msg,
     __init__ (VStr "id") (VStr "") (world0 tt)
     = (Raise (ValueError msg), world0 tt))
  /\ __init__ (VStr "id") (VStr "secret") (world0 tt)
     = (Ok (mkService (mkClient (VStr "id") (VStr "secret"))), world0 tt).
Proof.
  split.
  - apply (proj1 (init_requires_both_credentials unit
                    (VStr "id") (VStr "") (world0 tt))).
    right. right. right. reflexivity.
  - apply (proj2 (init_requires_both_credentials unit
                    (VStr "id") (VStr "secret") (world0 tt)) "id" "secret");
      [reflexivity | reflexivity | discriminate | discriminate].
Defined.

(** C5 on a provider out of service. *)
Lemma search_failures_are_logged_and_reraised_witness :
  search_tracks down "song" 20 (world0 tt)
  = (Raise (ProviderError "503"),
     after (world0 tt) tt (ReqSearch "song" "track" 20)
       (Raise (ProviderError "503"))
       [LineExn "Spotify search error: " (ProviderError "503")])
  /\ search_albums down "song" 20 (world0 tt)
     = (Raise (ProviderError "503"),
        after (world0 tt) tt (ReqSearch "song" "album" 20)
          (Raise (ProviderError "503"))
          [LineExn "Spotify album search error: " (ProviderError "503")]).
Proof.
  destruct (search_failures_are_logged_and_reraised unit down "song" 20
              (world0 tt)) as [(Ht & _) (Ha & _)].
  split; [apply Ht | apply Ha]; reflexivity.
Defined.

(** C5 fails on a provider whose answer is an empty object: the call
    succeeds and the search raises [KeyError]. *)
Lemma search_can_fail_after_the_call : ~ search_returns_iff_provider_succeeds.
Proof.
  intros H.
  destruct (proj2 (H unit hollow "song" 20 (world0 tt))) as (v & w' & Hrun).
  - exists (VDict []), tt. reflexivity.
  - vm_compute in Hrun. discriminate Hrun.
Qed.

(** C6 on a provider out of service, and on one that fails on the pages
    of an album. *)
Lemma detail_failures_become_none_witness :
  get_track_details down "t" (world0 tt)
  = (Ok VNone,
     after (world0 tt) tt (ReqTrack "t") (Raise (ProviderError "503"))
       [LineExn "Error fetching track details: " (ProviderError "503")])
  /\ fst (get_album_details flaky "a" (world0 tt)) = Ok VNone
  /\ stdout (snd (get_album_details flaky "a" (world0 tt)))
     = [LineExn "Error fetching album details: " (ProviderError "429")].
Proof.
  destruct (detail_failures_become_none unit down) as (_ & Ht & _ & _).
  destruct (detail_failures_become_none unit flaky) as (_ & _ & _ & Ha).
  split; [apply Ht; reflexivity|].
  destruct (Ha "a" (world0 tt)
              (fst (get_album_details flaky "a" (world0 tt)))
              (snd (get_album_details flaky "a" (world0 tt))))
    as (calls & Htr & Hraise).
  - destruct (get_album_details flaky "a" (world0 tt)). reflexivity.
  - apply (Hraise (ReqAlbumTracks "a" 50 50)).
    simpl in Htr. rewrite <- Htr. vm_compute. right. left. reflexivity.
Defined.

(** C8 on the sample catalog, asked for two tracks. *)
Lemma search_tracks_one_record_per_item_witness :
  exists tracks,
    value_of (search_tracks (catalog 12 12 50) "song" 2 (world0 tt))
    = VList tracks
    /\ Z.of_nat (length tracks) <= 2
    /\ Forall2 (fun item r => search_track_record item = Ok r)
         [full_track 0; full_track 1] tracks.
Proof.
  destruct (search_tracks_one_record_per_item unit (catalog 12 12 50)
              "song" 2 (world0 tt) (track_results 2) tt
              (VDict [("items", VList [full_track 0; full_track 1])])
              [full_track 0; full_track 1] eq_refl eq_refl eq_refl)
    as [H _]; [simpl; lia|].
  apply (H _ (snd (search_tracks (catalog 12 12 50) "song" 2 (world0 tt)))).
  vm_compute. reflexivity.
Defined.

(** C7 on the sample catalog: a looked-up track and a looked-up album
    show the first image of the album. *)
Lemma album_art_is_first_image_witness :
  (exists art,
     getitem full_track_record_sample "album_art" = Ok art
     /\ art_of_images [image_obj "https://img/640"; image_obj "https://img/300"]
          art)
  /\ (exists album tracks,
        fst (catalog 120 50 50 tt (ReqAlbum "a")) = Ok album
        /\ art_from album album_record_sample
        /\ getitem album_record_sample "tracks" = Ok (VList tracks)
        /\ Forall (art_from album) tracks).
Proof.
  destruct (album_art_is_first_image unit (catalog 120 50 50))
    as (_ & Ht & _ & Ha).
  split.
  - destruct (Ht "t" (world0 tt) full_track_record_sample
                (snd (get_track_details (catalog 120 50 50) "t" (world0 tt)))
                eq_refl) as (track & Hr & Hart); [discriminate|].
    injection Hr as <-. exact (Hart album_summary eq_refl _ eq_refl).
  - apply (Ha "a" (world0 tt) album_record_sample
             (snd (get_album_details (catalog 120 50 50) "a" (world0 tt)))).
    + vm_compute. reflexivity.
    + discriminate.
Defined.

(** C9 on the sample catalog: 120 tracks, 70 of them from later pages. *)
Lemma album_tracks_share_album_fields_witness :
  exists tracks,
    getitem album_record_sample "tracks" = Ok (VList tracks)
    /\ Forall (fun t =>
                 same_field t "album" album_record_sample "name"
                 /\ same_field t "album_id" album_record_sample "id"
                 /\ same_field t "album_art" album_record_sample "album_art"
                 /\ same_field t "release_date" album_record_sample
                      "release_date") tracks.
Proof.
  apply (album_tracks_share_album_fields unit (catalog 120 50 50) "a"
           (world0 tt) album_record_sample
           (snd (get_album_details (catalog 120 50 50) "a" (world0 tt)))).
  - vm_compute. reflexivity.
  - discriminate.
Defined.

(** C10 on the sample catalog: a looked-up track and a looked-up album. *)
Lemma artist_string_is_join_of_artists_witness :
  (artist_is_join full_track_record_sample "artists" "artist"
   /\ artist_is_join full_track_record_sample "album_artists" "album_artist")
  /\ (artist_is_join album_record_sample "artists" "artist"
      /\ exists tracks,
           getitem album_record_sample "tracks" = Ok (VList tracks)
           /\ Forall (fun r => artist_is_join r "artists" "artist") tracks).
Proof.
  destruct (artist_string_is_join_of_artists unit (catalog 120 50 50))
    as (_ & Ht & _ & Ha).
  split.
  - apply (Ht "t" (world0 tt) full_track_record_sample
             (snd (get_track_details (catalog 120 50 50) "t" (world0 tt))));
      [reflexivity | discriminate].
  - apply (Ha "a" (world0 tt) album_record_sample
             (snd (get_album_details (catalog 120 50 50) "a" (world0 tt))));
      [vm_compute; reflexivity | discriminate].
Defined.

(** C10 fails on a provider whose only artist has an empty name: the
    artist string is empty and the artist list is not. *)
Lemma one_empty_name_joins_to_empty : ~ artist_empty_iff_no_artists.
Proof.
  intros H.
  assert (Hnil : [VStr ""] = @nil value); [|discriminate Hnil].
  apply (H unit nameless "t" (world0 tt) nameless_record_sample
           (snd (get_track_details nameless "t" (world0 tt)))
           [VStr ""] "");
    reflexivity.
Qed.

(* ===================================================================== *)
(** ** Further properties of the record builders *)
(* ===================================================================== *)

Lemma for_append_first_failure body l1 item l2 rs e : forall acc,
  Forall2 (fun i x => body i = Ok x) l1 rs ->
  body item = Raise e ->
  for_append body (l1 ++ item :: l2) acc = Raise e.
Proof.
  intros acc H. revert acc.
  induction H as [|i x l1' rs' Hi _ IH]; intros acc He; simpl.
  - now rewrite He.
  - rewrite Hi. simpl. apply IH. exact He.
Qed.

Lemma for_append_some_failure body items : forall acc,
  Exists (fun item => exists e, body item = Raise e) items ->
  exists e, for_append body items acc = Raise e.
Proof.
  induction items as [|item rest IH]; intros acc H; [inversion H|].
  simpl. destruct (body item) as [x|e] eqn:Hb; simpl; [|eauto].
  apply IH. inversion H as [? ? [e He]|]; subst; [congruence | assumption].
Qed.

Lemma for_append_names l : forall acc names strs,
  for_append (fun artist => getitem artist "name") l acc = Ok names ->
  strings_of names = Ok strs ->
  exists pre post,
    strs = pre ++ post
    /\ acc = map VStr pre
    /\ Forall2 (fun a s => getitem a "name" = Ok (VStr s)) l post.
Proof.
  intros acc names strs H Hs. apply for_append_inv in H.
  destruct H as (rs & -> & Hall). apply strings_of_inv in Hs.
  revert strs Hs l Hall. induction acc as [|v acc IH]; intros strs Hs l Hall.
  - exists [], strs. simpl in *. subst rs. split; [reflexivity|].
    split; [reflexivity|].
    clear - Hall. revert l Hall.
    induction strs as [|s strs IH]; intros l Hall; inversion Hall; subst;
      constructor; auto.
  - destruct strs as [|s strs]; [discriminate|]. simpl in Hs.
    injection Hs as -> Hs. destruct (IH _ Hs _ Hall) as (pre & post & -> & -> & H).
    exists (s :: pre), post. auto.
Qed.

(** The artist list and string of a record, from the equations of its
    builder. *)
Lemma artists_from_intro owner r names a list_key str_key :
  artist_names owner = Ok names ->
  artist_string owner = Ok a ->
  getitem r list_key = Ok (VList names) ->
  getitem r str_key = Ok a ->
  artists_from owner r list_key str_key.
Proof.
  intros Hn Ha Hl Hs. unfold artist_string in Ha. rewrite Hn in Ha.
  simpl in Ha. unfold join in Ha.
  destruct (strings_of names) as [strs|e] eqn:Hstrs; simpl in Ha; [|discriminate].
  injection Ha as <-.
  unfold artist_names in Hn.
  destruct (getitem owner "artists") as [artists|e] eqn:Hart; simpl in Hn;
    [|discriminate].
  destruct (iter artists) as [l|e] eqn:Hit; simpl in Hn; [|discriminate].
  destruct (for_append_names _ _ _ _ Hn Hstrs) as (pre & post & -> & Hpre & Hall).
  destruct pre; [|discriminate]. simpl in *.
  exists artists, l, post. rewrite (strings_of_inv _ _ Hstrs) in Hl.
  repeat split; auto.
Qed.

Lemma first_url_or_none_falsy E imgs art :
  E = Ok imgs -> truthy imgs = false ->
  first_url_or_none E = Ok art -> art = VNone.
Proof.
  intros -> Hf H. unfold first_url_or_none in H. simpl in H.
  rewrite Hf in H. now inversion H.
Qed.

Ltac solve_falsy :=
  match goal with
  | Hi : ?E = Ok ?imgs, Hf : truthy ?imgs = false,
    He : first_url_or_none ?E = Ok ?art |- _ =>
      rewrite (first_url_or_none_falsy _ _ _ Hi Hf He); reflexivity
  end.

Ltac solve_artists :=
  match goal with
  | En : artist_names ?o = Ok ?n, Es : artist_string ?o = Ok ?a
    |- artists_from ?o _ _ _ =>
      eapply artists_from_intro; [exact En | exact Es | reflexivity | reflexivity]
  end.

Lemma search_track_record_more item r :
  search_track_record item = Ok r ->
  keys r = search_track_keys
  /\ artists_from item r "artists" "artist"
  /\ getitem r "preview_url" = get item "preview_url" VNone
  /\ forall a,
       getitem item "album" = Ok a ->
       art_none_when_falsy a r
       /\ getitem r "release_date" = get a "release_date" (VStr "").
Proof.
  intros H. unfold search_track_record in H. record_inv H.
  split; [reflexivity|]. split; [solve_artists|].
  split; [simpl; congruence|].
  intros a' Ha. inversion Ha; subst. split; [|simpl; congruence].
  intros imgs Hi Hf. solve_falsy.
Qed.

Lemma track_details_record_more track r :
  track_details_record track = Ok r ->
  keys r = track_details_keys
  /\ artists_from track r "artists" "artist"
  /\ getitem r "preview_url" = get track "preview_url" VNone
  /\ Forall (fun k => exists x, getitem track k = Ok x) required_track_keys
  /\ forall a,
       getitem track "album" = Ok a ->
       artists_from a r "album_artists" "album_artist"
       /\ art_none_when_falsy a r
       /\ getitem r "release_date" = get a "release_date" (VStr "").
Proof.
  intros H. unfold track_details_record in H. record_inv H.
  split; [reflexivity|]. split; [solve_artists|].
  split; [simpl; congruence|].
  split.
  { assert (Ha : exists x, getitem track "artists" = Ok x).
    { match goal with
      | En : artist_names track = Ok _ |- _ =>
          unfold artist_names in En;
          destruct (getitem track "artists"); [eauto | discriminate En]
      end. }
    unfold required_track_keys. repeat constructor; eauto. }
  intros a' Ha. inversion Ha; subst.
  split; [solve_artists|]. split; [|simpl; congruence].
  intros imgs Hi Hf. solve_falsy.
Qed.

Lemma search_album_record_more item r :
  search_album_record item = Ok r ->
  keys r = search_album_keys
  /\ artists_from item r "artists" "artist"
  /\ art_none_when_falsy item r.
Proof.
  intros H. unfold search_album_record in H. record_inv H.
  split; [reflexivity|]. split; [solve_artists|].
  intros imgs Hi Hf. solve_falsy.
Qed.

Lemma album_track_record_more album item r :
  album_track_record album item = Ok r ->
  keys r = album_track_keys
  /\ artists_from item r "artists" "artist"
  /\ art_none_when_falsy album r
  /\ getitem r "track_number" = getitem item "track_number"
  /\ getitem r "preview_url" = get item "preview_url" VNone.
Proof.
  intros H. unfold album_track_record in H. record_inv H.
  split; [reflexivity|]. split; [solve_artists|].
  split; [intros imgs Hi Hf; solve_falsy|].
  split; simpl; congruence.
Qed.

(** The album record of a lookup is the album record of a search on the
    same payload, with the listing added; it fails where that one fails. *)
Lemma album_details_record_as_search album tracks :
  album_details_record album tracks
  = (r <- search_album_record album ;; Ok (with_tracks r tracks)).
Proof.
  unfold album_details_record, search_album_record, rbind.
  repeat match goal with
    | |- context [match ?e with Ok _ => _ | Raise _ => _ end] =>
        destruct e; try reflexivity
    end.
Qed.

Lemma album_details_record_more album tracks r :
  album_details_record album tracks = Ok r ->
  keys r = album_details_keys
  /\ artists_from album r "artists" "artist"
  /\ art_none_when_falsy album r.
Proof.
  intros H. unfold album_details_record in H. record_inv H.
  split; [reflexivity|]. split; [solve_artists|].
  intros imgs Hi Hf. solve_falsy.
Qed.

(** A field looked up in a dict literal, key by key. *)
Ltac lookup_cases k Hk :=
  unfold getitem in Hk |- *; cbn [dict_lookup] in Hk |- *;
  repeat match type of Hk with
    | context [String.eqb k ?key] =>
        let E := fresh "E" in
        destruct (String.eqb k key) eqn:E;
        [apply String.eqb_eq in E; subst k; exact Hk|]
    end;
  discriminate Hk.

(** The record of a lookup holds every field of the record a search
    builds from the same track payload. *)
Lemma track_details_extends_search track v :
  track_details_record track = Ok v ->
  exists r, search_track_record track = Ok r /\ fields_within r v.
Proof.
  intros H. unfold track_details_record in H. record_inv H.
  unfold search_track_record, rbind.
  repeat match goal with
    | Hx : ?x = Ok _ |- context [?x] => rewrite Hx
    end.
  eexists. split; [reflexivity|].
  intros k x Hk. lookup_cases k Hk.
Qed.

Lemma album_prelude_inv ra album rs next :
  album_prelude ra = Ok (album, rs, next) ->
  ra = Ok album
  /\ exists l t,
       first_page album = Ok l
       /\ Forall2 (fun item x => album_track_record album item = Ok x) l rs
       /\ getitem album "tracks" = Ok t
       /\ get t "next" VNone = Ok next.
Proof.
  unfold album_prelude. intros H.
  destruct ra as [a|e]; simpl in H; [|discriminate].
  destruct (first_page a) as [l|e] eqn:Hl; simpl in H; [|discriminate].
  destruct (for_append (album_track_record a) l []) as [rs0|e] eqn:Hf;
    simpl in H; [|discriminate].
  destruct (getitem a "tracks") as [t|e] eqn:Ht; simpl in H; [|discriminate].
  destruct (get t "next" VNone) as [n|e] eqn:Hn; simpl in H; [|discriminate].
  injection H as -> -> ->. split; [reflexivity|].
  apply for_append_inv in Hf. destruct Hf as (rs' & -> & Hall).
  exists l, t. auto.
Qed.

Lemma album_prelude_ok album l t next :
  first_page album = Ok l ->
  Forall (fun item => exists x, album_track_record album item = Ok x) l ->
  getitem album "tracks" = Ok t ->
  get t "next" VNone = Ok next ->
  exists rs,
    album_prelude (Ok album) = Ok (album, rs, next)
    /\ length rs = length l.
Proof.
  intros Hl Hall Ht Hn.
  destruct (for_append_total (album_track_record album) l [] Hall)
    as (rs & Hf & Hlen).
  exists rs. split; [|exact Hlen]. unfold album_prelude. simpl.
  rewrite Hl. simpl. simpl in Hf. rewrite Hf. simpl. rewrite Ht. simpl.
  rewrite Hn. reflexivity.
Qed.

Lemma album_prelude_bad_item album l :
  first_page album = Ok l ->
  Exists (fun item => exists e, album_track_record album item = Raise e) l ->
  exists e, album_prelude (Ok album) = Raise e.
Proof.
  intros Hl Hbad.
  destruct (for_append_some_failure (album_track_record album) l [] Hbad)
    as [e He].
  exists e. unfold album_prelude. simpl. rewrite Hl. simpl. rewrite He.
  reflexivity.
Qed.

Lemma unnumbered_item_fails album d :
  dict_lookup "track_number" d = None ->
  exists e, album_track_record album (VDict d) = Raise e.
Proof.
  intros Hd. destruct (album_track_record album (VDict d)) as [r|e] eqn:H;
    [|eauto].
  unfold album_track_record in H. record_inv H.
  match goal with
  | Hn : getitem (VDict d) "track_number" = Ok _ |- _ =>
      simpl in Hn; rewrite Hd in Hn; discriminate Hn
  end.
Qed.

(* ===================================================================== *)
(** ** Further properties of the runs *)
(* ===================================================================== *)

Section MoreRuns.

Variable PS : Type.
Variable respond : PS -> request -> result value * PS.

(** [get_album_details] in full: the album request, what is read before
    the loop, the loop if there is a continuation link, the record. *)
Lemma get_album_details_eq album_id w :
  get_album_details respond album_id w =
  let (ra, s) := respond (provider w) (ReqAlbum album_id) in
  match album_prelude ra with
  | Raise e =>
      (Ok VNone,
       after w s (ReqAlbum album_id) ra
         [LineExn "Error fetching album details: " e])
  | Ok (album, rs, next) =>
      let (r, w2) :=
        if truthy next
        then pagination respond album album_id (Z.of_nat (length rs)) rs
               (after w s (ReqAlbum album_id) ra [])
        else (Ok rs, after w s (ReqAlbum album_id) ra []) in
      match (tracks <- r ;; album_details_record album tracks) with
      | Ok v => (Ok v, w2)
      | Raise e =>
          (Ok VNone,
           mkWorld (provider w2) (trace w2)
             (stdout w2 ++ [LineExn "Error fetching album details: " e]))
      end
  end.
Proof.
  destruct (respond (provider w) (ReqAlbum album_id)) as [ra s] eqn:Hr.
  unfold album_prelude.
  destruct ra as [album|e]; simpl.
  2:{ unfold get_album_details, try_except, bind, call, lift, ret, print, after.
      rewrite Hr. reflexivity. }
  destruct (first_page album) as [l|e] eqn:Hl; simpl.
  2:{ unfold get_album_details, try_except, bind, call, lift, ret, print, after.
      rewrite Hr. simpl.
      change (t <- getitem album "tracks" ;; i <- getitem t "items" ;; iter i)
        with (first_page album).
      rewrite Hl. reflexivity. }
  destruct (for_append (album_track_record album) l []) as [rs|e] eqn:Hf; simpl.
  2:{ unfold get_album_details, try_except, bind, call, lift, ret, print, after.
      rewrite Hr. simpl.
      change (t <- getitem album "tracks" ;; i <- getitem t "items" ;; iter i)
        with (first_page album).
      rewrite Hl. simpl. rewrite Hf. reflexivity. }
  destruct (getitem album "tracks") as [t|e] eqn:Ht; simpl.
  2:{ unfold first_page in Hl. rewrite Ht in Hl. discriminate Hl. }
  destruct (get t "next" VNone) as [next|e] eqn:Hn; simpl.
  2:{ unfold get_album_details, try_except, bind, call, lift, ret, print, after.
      rewrite Hr. simpl.
      change (t <- getitem album "tracks" ;; i <- getitem t "items" ;; iter i)
        with (first_page album).
      rewrite Hl. simpl. rewrite Hf. simpl. rewrite Ht. simpl. rewrite Hn.
      reflexivity. }
  rewrite (get_album_details_run _ _ _ _ _ _ _ _ _ _ Hr Hl Hf Ht Hn).
  reflexivity.
Qed.

(** A turn of the loop, with the items its page added. *)
Lemma page_turn_items album id offset tracks w r w' :
  page_turn respond album id offset tracks w = (r, w') ->
  exists res,
    trace w' = trace w ++ [(ReqAlbumTracks id 50 offset, res)]
    /\ match r with
       | Raise _ => True
       | Ok (Break t) =>
           exists rs,
             t = tracks ++ rs
             /\ Forall2 (fun item x => album_track_record album item = Ok x)
                  (page_items res) rs
       | Ok (Continue o t) =>
           o = offset + 50 /\ o < 1000
           /\ page_continues res
           /\ exists rs,
                t = tracks ++ rs
                /\ Forall2 (fun item x => album_track_record album item = Ok x)
                     (page_items res) rs
       end.
Proof.
  unfold page_turn, bind, call, lift, ret, print. simpl.
  destruct (respond (provider w) (ReqAlbumTracks id 50 offset)) as [res s].
  intros H. exists res.
  destruct res as [next_page|e]; simpl in H.
  2:{ inversion H; subst; simpl. auto. }
  unfold page_items, page_continues.
  destruct (getitem next_page "items") as [items|e] eqn:Hi; simpl in H;
    [|inversion H; subst; simpl; auto].
  destruct (truthy items) eqn:Ht; simpl in H.
  2:{ inversion H; subst; simpl. split; [reflexivity|].
      exists []. rewrite app_nil_r. split; [reflexivity | constructor]. }
  destruct (iter items) as [l|e]; simpl in H; [|inversion H; subst; simpl; auto].
  destruct (for_append _ l tracks) as [t|e] eqn:Hf; simpl in H;
    [|inversion H; subst; simpl; auto].
  apply for_append_inv in Hf. destruct Hf as (rs & -> & Hall).
  destruct (get next_page "next" VNone) as [next|e] eqn:Hn; simpl in H;
    [|inversion H; subst; simpl; auto].
  destruct (truthy next) eqn:Hnt; simpl in H;
    [|inversion H; subst; simpl; split; eauto].
  destruct (1000 <=? offset + 50) eqn:Hc; simpl in H; inversion H; subst; simpl.
  - split; eauto.
  - apply Z.leb_gt in Hc. split; [reflexivity|].
    split; [reflexivity|]. split; [exact Hc|]. split; [|eauto].
    exists next_page, items, next. auto.
Qed.

(** The loop in full: its requests are at [offset], [offset + 50],
    [offset + 100] and so on, all but the first below the ceiling; every
    page but the last arrived non-empty with a continuation link; and the
    tracks it returns are the ones it was given followed by one record per
    item of the pages, in the order of the requests. *)
Lemma pagination_shape album id : forall n offset tracks w r w',
  (headroom offset < n)%nat ->
  pagination respond album id offset tracks w = (r, w') ->
  exists pages,
    trace w' = trace w ++ pages
    /\ pages <> []
    /\ (forall k ev,
          nth_error pages k = Some ev ->
          fst ev = ReqAlbumTracks id 50 (offset + 50 * Z.of_nat k)
          /\ ((0 < k)%nat -> offset + 50 * Z.of_nat k < 1000)
          /\ ((S k < length pages)%nat -> page_continues (snd ev)))
    /\ (forall t,
          r = Ok t ->
          exists rs,
            t = tracks ++ rs
            /\ Forall2 (fun item x => album_track_record album item = Ok x)
                 (flat_map (fun ev => page_items (snd ev)) pages) rs).
Proof.
  induction n as [|n IH]; intros offset tracks w r w' Hn H; [lia|].
  rewrite pagination_step in H.
  destruct (page_turn respond album id offset tracks w)
    as [[[t|o t]|e] w1] eqn:Hp;
    apply page_turn_items in Hp; destruct Hp as (res & Htr & Hr).
  - inversion H; subst. exists [(ReqAlbumTracks id 50 offset, res)].
    split; [exact Htr|]. split; [discriminate|]. split.
    + intros k ev Hk. destruct k as [|k]; simpl in Hk.
      * injection Hk as <-. simpl. split; [f_equal; lia|].
        split; intros; lia.
      * destruct k; discriminate Hk.
    + intros t' [= <-]. simpl. rewrite app_nil_r. exact Hr.
  - destruct Hr as (-> & Hlt & Hcont & rs & -> & Hall).
    assert (Hn' : (headroom (offset + 50) < n)%nat)
      by (unfold headroom in *; lia).
    destruct (IH _ _ _ _ _ Hn' H) as (pages & Htr' & Hne & Hreq & Hres).
    exists ((ReqAlbumTracks id 50 offset, res) :: pages).
    split; [rewrite Htr', Htr, <- app_assoc; reflexivity|].
    split; [discriminate|]. split.
    + intros k ev Hk. destruct k as [|k]; simpl in Hk.
      * injection Hk as <-. simpl. split; [f_equal; lia|].
        split; [intros; lia | intros _; exact Hcont].
      * destruct (Hreq k ev Hk) as (Hfst & Hlow & Hmid).
        split; [rewrite Hfst; f_equal; lia|].
        split.
        { intros _. destruct k as [|k']; [lia|].
          assert (0 < S k')%nat by lia. specialize (Hlow H0). lia. }
        { intros Hlen. apply Hmid. simpl in Hlen. lia. }
    + intros t' ->. destruct (Hres t' eq_refl) as (rs' & -> & Hall').
      exists (rs ++ rs'). split; [now rewrite app_assoc|].
      simpl. apply Forall2_app; assumption.
  - inversion H; subst. exists [(ReqAlbumTracks id 50 offset, res)].
    split; [exact Htr|]. split; [discriminate|]. split.
    + intros k ev Hk. destruct k as [|k]; simpl in Hk.
      * injection Hk as <-. simpl. split; [f_equal; lia|].
        split; intros; lia.
      * destruct k; discriminate Hk.
    + intros t' [=].
Qed.

(** Every run of [get_album_details], by what it read before the loop:
    the requests it made, the listing it built and the lines it printed. *)
Lemma get_album_details_shape album_id w r w' :
  get_album_details respond album_id w = (r, w') ->
  exists ra s pages,
    respond (provider w) (ReqAlbum album_id) = (ra, s)
    /\ trace w' = trace w ++ (ReqAlbum album_id, ra) :: pages
    /\ match album_prelude ra with
       | Raise e =>
           pages = [] /\ r = Ok VNone
           /\ stdout w' = stdout w ++ [LineExn "Error fetching album details: " e]
       | Ok (album, rs, next) =>
           (pages <> [] <-> truthy next = true)
           /\ (forall k ev,
                 nth_error pages k = Some ev ->
                 fst ev = ReqAlbumTracks album_id 50
                            (Z.of_nat (length rs) + 50 * Z.of_nat k)
                 /\ ((0 < k)%nat ->
                     Z.of_nat (length rs) + 50 * Z.of_nat k < 1000)
                 /\ ((S k < length pages)%nat -> page_continues (snd ev)))
           /\ ((exists v rs',
                  r = Ok v /\ v <> VNone
                  /\ album_details_record album (rs ++ rs') = Ok v
                  /\ Forall2 (fun item x => album_track_record album item = Ok x)
                       (flat_map (fun ev => page_items (snd ev)) pages) rs'
                  /\ (stdout w' = stdout w
                      \/ stdout w' = stdout w ++ [ceiling_warning album_id]))
               \/ (r = Ok VNone
                   /\ exists e lines,
                        stdout w' = stdout w ++ lines
                                      ++ [LineExn "Error fetching album details: " e]
                        /\ (lines = [] \/ lines = [ceiling_warning album_id])))
       end.
Proof.
  rewrite get_album_details_eq.
  destruct (respond (provider w) (ReqAlbum album_id)) as [ra s].
  intros H. exists ra, s.
  destruct (album_prelude ra) as [[[album rs] next]|e].
  2:{ exists []. inversion H; subst. simpl. auto. }
  destruct (truthy next).
  - destruct (pagination respond album album_id (Z.of_nat (length rs)) rs _)
      as [rp wp] eqn:Hp.
    pose proof (pagination_inv _ _ _ _ (S (headroom (Z.of_nat (length rs))))
                  _ _ _ _ _ (Nat.lt_succ_diag_r _) Hp)
      as (_ & _ & _ & _ & Hout).
    apply (pagination_shape _ _ (S (headroom (Z.of_nat (length rs))))) in Hp;
      [|lia].
    destruct Hp as (pages & Htr & Hne & Hreq & Hres).
    simpl in Htr, Hout. rewrite app_nil_r in Hout.
    exists pages. split; [reflexivity|].
    assert (Htrace : forall w2 : world PS,
              trace w2 = trace wp ->
              trace w2 = trace w ++ (ReqAlbum album_id, ra) :: pages).
    { intros w2 ->. rewrite Htr, <- app_assoc. reflexivity. }
    split; [|split; [tauto|split; [exact Hreq|]]].
    { destruct rp as [t|e]; simpl in H;
        [destruct (album_details_record album t)|];
        inversion H; subst; apply Htrace; reflexivity. }
    destruct rp as [t|e]; simpl in H.
    + destruct Hout as [_ Hout].
      destruct (Hres t eq_refl) as (rs' & -> & Hall).
      destruct (album_details_record album (rs ++ rs')) as [v|e] eqn:Hv;
        inversion H; subst.
      * left. exists v, rs'. split; [reflexivity|].
        split; [apply album_details_record_fields in Hv; tauto|]. auto.
      * right. split; [reflexivity|]. simpl.
        destruct Hout as [-> | ->].
        { exists e, []. auto. }
        { exists e, [ceiling_warning album_id]. rewrite <- app_assoc. auto. }
    + inversion H; subst. right. split; [reflexivity|]. simpl.
      rewrite Hout. exists e, []. auto.
  - exists []. simpl in H. split; [reflexivity|].
    assert (Hs : forall lines, after w s (ReqAlbum album_id) ra lines
                 = mkWorld s (trace w ++ [(ReqAlbum album_id, ra)])
                     (stdout w ++ lines)) by reflexivity.
    split.
    { destruct (album_details_record album rs); inversion H; subst; reflexivity. }
    split; [split; [congruence | discriminate]|].
    split; [intros k ev Hk; destruct k; discriminate Hk|].
    destruct (album_details_record album rs) as [v|e] eqn:Hv;
      inversion H; subst; simpl; rewrite app_nil_r.
    + left. exists v, []. rewrite app_nil_r. split; [reflexivity|].
      split; [apply album_details_record_fields in Hv; tauto|].
      split; [exact Hv|]. split; [constructor | auto].
    + right. split; [reflexivity|]. exists e, []. auto.
Qed.

End MoreRuns.

(* ===================================================================== *)
(** ** Further properties of the operations *)
(* ===================================================================== *)

Section Extras.

Variable PS : Type.
Variable respond : PS -> request -> result value * PS.

(** X1.  When the provider answers an album search of limit [N] with at
    most [N] items, [search_albums] returns exactly one record per item,
    in the provider's order, hence at most [N] records; and it does
    return whenever every item can be reshaped. *)
Theorem search_albums_one_record_per_item q N w results s t l :
  respond (provider w) (ReqSearch q "album" N) = (Ok results, s) ->
  getitem results "albums" = Ok t ->
  getitem t "items" = Ok (VList l) ->
  Z.of_nat (length l) <= N ->
  (forall v w',
     search_albums respond q N w = (Ok v, w') ->
     exists albums,
       v = VList albums
       /\ Z.of_nat (length albums) <= N
       /\ Forall2 (fun item r => search_album_record item = Ok r) l albums)
  /\ (forall albums,
        Forall2 (fun item r => search_album_record item = Ok r) l albums ->
        fst (search_albums respond q N w) = Ok (VList albums)).
Proof.
  intros Hr Ht Hi Hn. rewrite search_albums_run. cbv zeta. rewrite Hr.
  unfold search_payload. simpl. rewrite Ht. simpl. rewrite Hi. simpl. split.
  - intros v w' H.
    destruct (for_append search_album_record l []) as [rs|e] eqn:Hf;
      simpl in H; [|discriminate].
    apply for_append_inv in Hf. destruct Hf as (rs' & -> & Hall).
    inversion H. exists rs'. simpl. repeat split; auto.
    rewrite <- (Forall2_length_eq _ _ _ Hall). exact Hn.
  - intros albums Hall.
    rewrite (for_append_complete _ _ [] _ Hall). reflexivity.
Qed.

Lemma search_payload_first_failure kind record results l1 item l2 rs e :
  served_items kind results (l1 ++ item :: l2) ->
  Forall2 (fun i x => record i = Ok x) l1 rs ->
  record item = Raise e ->
  search_payload kind record results = Raise e.
Proof.
  intros (t & items & Ht & Hi & Hl) Hall He. unfold search_payload.
  rewrite Ht. simpl. rewrite Hi. simpl. rewrite Hl. simpl.
  rewrite (for_append_first_failure _ _ _ _ _ _ [] Hall He). reflexivity.
Qed.

(** X2.  A search gives all the records or none: when an item of the
    answer cannot be reshaped, [search_tracks] and [search_albums] print
    and raise the exception of the first such item, and the records built
    from the items before it are lost. *)
Theorem search_fails_on_first_bad_item q N w results s l1 item l2 rs e :
  (respond (provider w) (ReqSearch q "track" N) = (Ok results, s) ->
   served_items "tracks" results (l1 ++ item :: l2) ->
   Forall2 (fun i x => search_track_record i = Ok x) l1 rs ->
   search_track_record item = Raise e ->
   search_tracks respond q N w
   = (Raise e, after w s (ReqSearch q "track" N) (Ok results)
                 [LineExn "Spotify search error: " e]))
  /\ (respond (provider w) (ReqSearch q "album" N) = (Ok results, s) ->
      served_items "albums" results (l1 ++ item :: l2) ->
      Forall2 (fun i x => search_album_record i = Ok x) l1 rs ->
      search_album_record item = Raise e ->
      search_albums respond q N w
      = (Raise e, after w s (ReqSearch q "album" N) (Ok results)
                    [LineExn "Spotify album search error: " e])).
Proof.
  split; intros Hr Hs Hall He.
  - rewrite search_tracks_run. cbv zeta. rewrite Hr. simpl.
    rewrite (search_payload_first_failure _ _ _ _ _ _ _ _ Hs Hall He).
    reflexivity.
  - rewrite search_albums_run. cbv zeta. rewrite Hr. simpl.
    rewrite (search_payload_first_failure _ _ _ _ _ _ _ _ Hs Hall He).
    reflexivity.
Qed.

(** X3.  [get_track_details] needs the keys [id], [name], [artists],
    [album], [duration_ms] and [external_urls] in the track payload: when
    one of them is missing it prints the failure and returns [None]. *)
Theorem track_lookup_needs_required_keys track_id w d s k :
  respond (provider w) (ReqTrack track_id) = (Ok (VDict d), s) ->
  In k required_track_keys ->
  dict_lookup k d = None ->
  exists e,
    get_track_details respond track_id w
    = (Ok VNone, after w s (ReqTrack track_id) (Ok (VDict d))
                   [LineExn "Error fetching track details: " e]).
Proof.
  intros Hr Hk Hd. rewrite get_track_details_run. cbv zeta. rewrite Hr. simpl.
  destruct (track_details_record (VDict d)) as [v|e] eqn:Hv; [|eauto].
  apply track_details_record_more in Hv.
  destruct Hv as (_ & _ & _ & Hreq & _).
  rewrite Forall_forall in Hreq. destruct (Hreq k Hk) as [x Hx].
  simpl in Hx. rewrite Hd in Hx. discriminate Hx.
Qed.

(** X4.  The keys [preview_url] and [release_date] are optional: in a
    record returned by [get_track_details] the preview link is the
    payload's or [None], and the release date is the one of the payload's
    album or the empty string. *)
Theorem track_lookup_defaults track_id w v w' :
  get_track_details respond track_id w = (Ok v, w') ->
  v <> VNone ->
  exists d da,
    fst (respond (provider w) (ReqTrack track_id)) = Ok (VDict d)
    /\ dict_lookup "album" d = Some (VDict da)
    /\ getitem v "preview_url"
       = Ok match dict_lookup "preview_url" d with
            | Some x => x
            | None => VNone
            end
    /\ getitem v "release_date"
       = Ok match dict_lookup "release_date" da with
            | Some x => x
            | None => VStr ""
            end.
Proof.
  intros H Hv.
  destruct (get_track_details_ok_inv _ _ _ _ _ _ H Hv) as (track & Hr & Hrec).
  destruct (track_details_record_dict _ _ Hrec) as [d ->].
  pose proof (track_details_record_more _ _ Hrec) as (_ & _ & Hp & Hreq & Ha).
  rewrite Forall_forall in Hreq.
  destruct (Hreq "album") as [a Halb]; [simpl; tauto|].
  destruct (Ha a Halb) as (_ & _ & Hd).
  destruct a as [| | | | |da].
  1-5: exfalso; clear - Hd; simpl in Hd;
       destruct v as [| | | | |dv]; simpl in Hd; try discriminate Hd;
       destruct (dict_lookup "release_date" dv); discriminate Hd.
  exists d, da. split; [exact Hr|]. split.
  { simpl in Halb. destruct (dict_lookup "album" d); congruence. }
  split.
  - rewrite Hp. simpl. destruct (dict_lookup "preview_url" d); reflexivity.
  - rewrite Hd. simpl. destruct (dict_lookup "release_date" da); reflexivity.
Qed.

(** X5.  The records have a fixed shape: whatever else the payload
    holds, a record has exactly the keys of its dict literal, in that
    order; in particular an album record of a search has no listing and
    an album record of a lookup has one. *)
Theorem records_have_fixed_keys :
  (forall q N w tracks w',
     search_tracks respond q N w = (Ok (VList tracks), w') ->
     Forall (fun r => keys r = search_track_keys) tracks)
  /\ (forall track_id w v w',
        get_track_details respond track_id w = (Ok v, w') ->
        v <> VNone ->
        keys v = track_details_keys)
  /\ (forall q N w albums w',
        search_albums respond q N w = (Ok (VList albums), w') ->
        Forall (fun r => keys r = search_album_keys) albums)
  /\ (forall album_id w v w',
        get_album_details respond album_id w = (Ok v, w') ->
        v <> VNone ->
        keys v = album_details_keys
        /\ exists tracks,
             getitem v "tracks" = Ok (VList tracks)
             /\ Forall (fun r => keys r = album_track_keys) tracks).
Proof.
  split; [|split; [|split]].
  - intros q N w tracks w' H. apply search_tracks_ok_inv in H.
    destruct H as (results & t & items & l & rs & _ & _ & _ & _ & [= ->] & Hall).
    induction Hall as [|item r l' rs' Hrec _ IH]; constructor; [|exact IH].
    apply search_track_record_more in Hrec. tauto.
  - intros track_id w v w' H Hv.
    destruct (get_track_details_ok_inv _ _ _ _ _ _ H Hv) as (track & _ & Hrec).
    apply track_details_record_more in Hrec. tauto.
  - intros q N w albums w' H. apply search_albums_ok_inv in H.
    destruct H as (results & t & items & l & rs & _ & _ & _ & _ & [= ->] & Hall).
    induction Hall as [|item r l' rs' Hrec _ IH]; constructor; [|exact IH].
    apply search_album_record_more in Hrec. tauto.
  - intros album_id w v w' H Hv.
    destruct (get_album_details_ok_inv _ _ _ _ _ _ H Hv)
      as (album & tracks & _ & Hrec & Hall).
    pose proof (album_details_record_more _ _ _ Hrec) as (Hk & _).
    apply album_details_record_fields in Hrec.
    destruct Hrec as (_ & _ & Htracks & _).
    split; [exact Hk|]. exists tracks. split; [exact Htracks|].
    eapply Forall_impl; [|exact Hall]. intros r [item Hitem].
    apply album_track_record_more in Hitem. tauto.
Qed.


(** X7.  The album art of a record is [None] whenever the image value of
    the payload counts as false, a null as well as an empty list: for the
    album of a track in a track search and a track lookup, for the album
    itself in an album search, an album lookup and each track of its
    listing. *)
Theorem album_art_is_none_without_images :
  (forall q N w v w',
     search_tracks respond q N w = (Ok v, w') ->
     exists results l tracks,
       fst (respond (provider w) (ReqSearch q "track" N)) = Ok results
       /\ served_items "tracks" results l
       /\ v = VList tracks
       /\ Forall2 (fun item r =>
                     forall a, getitem item "album" = Ok a ->
                               art_none_when_falsy a r) l tracks)
  /\ (forall track_id w v w',
        get_track_details respond track_id w = (Ok v, w') ->
        v <> VNone ->
        exists track,
          fst (respond (provider w) (ReqTrack track_id)) = Ok track
          /\ forall a, getitem track "album" = Ok a -> art_none_when_falsy a v)
  /\ (forall q N w v w',
        search_albums respond q N w = (Ok v, w') ->
        exists results l albums,
          fst (respond (provider w) (ReqSearch q "album" N)) = Ok results
          /\ served_items "albums" results l
          /\ v = VList albums
          /\ Forall2 art_none_when_falsy l albums)
  /\ (forall album_id w v w',
        get_album_details respond album_id w = (Ok v, w') ->
        v <> VNone ->
        exists album tracks,
          fst (respond (provider w) (ReqAlbum album_id)) = Ok album
          /\ art_none_when_falsy album v
          /\ getitem v "tracks" = Ok (VList tracks)
          /\ Forall (art_none_when_falsy album) tracks).
Proof.
  split; [|split; [|split]].
  - intros q N w v w' H. apply search_tracks_ok_inv in H.
    destruct H as (results & t & items & l & rs & Hr & Ht & Hi & Hl & -> & Hall).
    exists results, l, rs. split; [exact Hr|].
    split; [exists t, items; auto|]. split; [reflexivity|].
    eapply Forall2_impl; [|exact Hall]. intros item r Hrec a Ha.
    apply search_track_record_more in Hrec.
    destruct Hrec as (_ & _ & _ & Halb). destruct (Halb a Ha). assumption.
  - intros track_id w v w' H Hv.
    destruct (get_track_details_ok_inv _ _ _ _ _ _ H Hv) as (track & Hr & Hrec).
    exists track. split; [exact Hr|]. intros a Ha.
    apply track_details_record_more in Hrec.
    destruct Hrec as (_ & _ & _ & _ & Halb). destruct (Halb a Ha). tauto.
  - intros q N w v w' H. apply search_albums_ok_inv in H.
    destruct H as (results & t & items & l & rs & Hr & Ht & Hi & Hl & -> & Hall).
    exists results, l, rs. split; [exact Hr|].
    split; [exists t, items; auto|]. split; [reflexivity|].
    eapply Forall2_impl; [|exact Hall]. intros item r Hrec.
    apply search_album_record_more in Hrec. tauto.
  - intros album_id w v w' H Hv.
    destruct (get_album_details_ok_inv _ _ _ _ _ _ H Hv)
      as (album & tracks & Hr & Hrec & Hall).
    pose proof (album_details_record_more _ _ _ Hrec) as (_ & _ & Hart).
    apply album_details_record_fields in Hrec.
    destruct Hrec as (_ & _ & Htracks & _).
    exists album, tracks. split; [exact Hr|]. split; [exact Hart|].
    split; [exact Htracks|].
    eapply Forall_impl; [|exact Hall]. intros r [item Hitem].
    apply album_track_record_more in Hitem. tauto.
Qed.

(** X8.  Lookup and search agree on a payload.  The record of
    [get_track_details] holds every field of the record [search_tracks]
    builds from the same track payload, with the same value; the record
    of [get_album_details] is the record [search_albums] builds from the
    same album payload, with the listing added at the end. *)
Theorem lookup_records_extend_search_records :
  (forall track_id w v w',
     get_track_details respond track_id w = (Ok v, w') ->
     v <> VNone ->
     exists track r,
       fst (respond (provider w) (ReqTrack track_id)) = Ok track
       /\ search_track_record track = Ok r
       /\ fields_within r v)
  /\ (forall album_id w v w',
        get_album_details respond album_id w = (Ok v, w') ->
        v <> VNone ->
        exists album r tracks,
          fst (respond (provider w) (ReqAlbum album_id)) = Ok album
          /\ search_album_record album = Ok r
          /\ v = with_tracks r tracks).
Proof.
  split.
  - intros track_id w v w' H Hv.
    destruct (get_track_details_ok_inv _ _ _ _ _ _ H Hv) as (track & Hr & Hrec).
    destruct (track_details_extends_search _ _ Hrec) as (r & Hs & Hf).
    exists track, r. repeat split; assumption.
  - intros album_id w v w' H Hv.
    destruct (get_album_details_ok_inv _ _ _ _ _ _ H Hv)
      as (album & tracks & Hr & Hrec & _).
    rewrite album_details_record_as_search in Hrec.
    destruct (search_album_record album) as [r|e] eqn:Hs; simpl in Hrec;
      [|discriminate].
    injection Hrec as <-. exists album, r, tracks. auto.
Qed.

(** X9.  The continuation link of the album decides whether pages are
    asked for.  On an album that arrives with its embedded tracks well
    formed, [get_album_details] makes no page request when the link is
    absent or counts as false, and otherwise asks first at the offset
    that is the number of embedded tracks. *)
Theorem paging_starts_after_embedded_tracks album_id w album s l t next :
  respond (provider w) (ReqAlbum album_id) = (Ok album, s) ->
  first_page album = Ok l ->
  Forall (fun item => exists x, album_track_record album item = Ok x) l ->
  getitem album "tracks" = Ok t ->
  get t "next" VNone = Ok next ->
  (truthy next = false ->
   trace (snd (get_album_details respond album_id w))
   = trace w ++ [(ReqAlbum album_id, Ok album)])
  /\ (truthy next = true ->
      exists res pages,
        trace (snd (get_album_details respond album_id w))
        = trace w ++ (ReqAlbum album_id, Ok album)
            :: (ReqAlbumTracks album_id 50 (Z.of_nat (length l)), res)
            :: pages).
Proof.
  intros Hr Hl Hall Ht Hn.
  destruct (get_album_details respond album_id w) as [r w'] eqn:H.
  apply get_album_details_shape in H.
  destruct H as (ra & s' & pages & Hr' & Htr & Hshape).
  rewrite Hr in Hr'. injection Hr' as <- <-.
  destruct (album_prelude_ok _ _ _ _ Hl Hall Ht Hn) as (rs & Hpre & Hlen).
  rewrite Hpre in Hshape. destruct Hshape as (Hiff & Hreq & _).
  simpl. split; intros Hnext.
  - destruct pages as [|ev pages]; [exact Htr|].
    assert (Hne : ev :: pages <> []) by discriminate.
    apply Hiff in Hne. congruence.
  - destruct pages as [|[req res] pages].
    + apply Hiff in Hnext. congruence.
    + destruct (Hreq 0%nat (req, res) eq_refl) as (Hfst & _).
      simpl in Hfst. subst req. exists res, pages. rewrite Htr.
      rewrite Hlen. repeat f_equal. lia.
Qed.

(** X10.  The listing keeps the provider's order.  In a record returned
    by [get_album_details] the listing holds one record per item served,
    first the items embedded in the album, then the items of each page in
    the order the pages were asked for. *)
Theorem album_listing_follows_served_order album_id w v w' :
  get_album_details respond album_id w = (Ok v, w') ->
  v <> VNone ->
  exists album l pages tracks,
    fst (respond (provider w) (ReqAlbum album_id)) = Ok album
    /\ first_page album = Ok l
    /\ trace w' = trace w ++ (ReqAlbum album_id, Ok album) :: pages
    /\ getitem v "tracks" = Ok (VList tracks)
    /\ Forall2 (fun item x => album_track_record album item = Ok x)
         (l ++ flat_map (fun ev => page_items (snd ev)) pages) tracks.
Proof.
  intros H Hv. apply get_album_details_shape in H.
  destruct H as (ra & s & pages & Hr & Htr & Hshape).
  destruct (album_prelude ra) as [[[album rs] next]|e] eqn:Hpre.
  2:{ destruct Hshape as (_ & [= ->] & _). congruence. }
  apply album_prelude_inv in Hpre.
  destruct Hpre as (-> & l & t & Hl & Hall & _).
  destruct Hshape as (_ & _ & [Hrec | [[= ->] _]]); [|congruence].
  destruct Hrec as (v0 & rs' & [= <-] & _ & Hrec & Hall' & _).
  exists album, l, pages, (rs ++ rs').
  split; [rewrite Hr; reflexivity|]. split; [exact Hl|].
  split; [exact Htr|].
  split; [apply album_details_record_fields in Hrec; tauto|].
  apply Forall2_app; assumption.
Qed.

(** X11.  The page requests of [get_album_details] all ask for 50 tracks
    of the same album, at offsets that start from the number of embedded
    tracks and go up by 50; there are at most 20 of them, whatever the
    provider answers. *)
Theorem page_requests_step_by_50 album_id w :
  exists ra pages n0,
    trace (snd (get_album_details respond album_id w))
    = trace w ++ (ReqAlbum album_id, ra) :: pages
    /\ (length pages <= 20)%nat
    /\ (forall k ev,
          nth_error pages k = Some ev ->
          fst ev = ReqAlbumTracks album_id 50
                     (Z.of_nat n0 + 50 * Z.of_nat k))
    /\ (pages <> [] ->
        exists album l,
          ra = Ok album /\ first_page album = Ok l /\ n0 = length l).
Proof.
  destruct (get_album_details respond album_id w) as [r w'] eqn:H.
  apply get_album_details_shape in H.
  destruct H as (ra & s & pages & Hr & Htr & Hshape).
  exists ra, pages. simpl.
  destruct (album_prelude ra) as [[[album rs] next]|e] eqn:Hpre.
  2:{ destruct Hshape as (-> & _). exists 0%nat. split; [exact Htr|].
      split; [simpl; lia|]. split; [|congruence].
      intros k ev Hk. destruct k; discriminate Hk. }
  apply album_prelude_inv in Hpre.
  destruct Hpre as (-> & l & t & Hl & Hall & _).
  apply Forall2_length_eq in Hall.
  destruct Hshape as (_ & Hreq & _).
  exists (length rs). split; [exact Htr|]. split.
  - destruct (nth_error pages 20) as [ev|] eqn:H20.
    + destruct (Hreq 20%nat ev H20) as (_ & Hlow & _).
      assert (0 < 20)%nat by lia. specialize (Hlow H). lia.
    + apply nth_error_None in H20. lia.
  - split.
    + intros k ev Hk. destruct (Hreq k ev Hk). assumption.
    + intros _. exists album, l. auto.
Qed.

(** X12.  [get_album_details] asks for a further page only after a page
    that arrived, was not empty and had a continuation link: every page
    answer but the last is such a page. *)
Theorem next_page_only_after_link album_id w :
  exists ra pages,
    trace (snd (get_album_details respond album_id w))
    = trace w ++ (ReqAlbum album_id, ra) :: pages
    /\ forall k ev,
         nth_error pages k = Some ev ->
         (S k < length pages)%nat ->
         page_continues (snd ev).
Proof.
  destruct (get_album_details respond album_id w) as [r w'] eqn:H.
  apply get_album_details_shape in H.
  destruct H as (ra & s & pages & Hr & Htr & Hshape).
  exists ra, pages. simpl. split; [exact Htr|].
  destruct (album_prelude ra) as [[[album rs] next]|e].
  - destruct Hshape as (_ & Hreq & _).
    intros k ev Hk. destruct (Hreq k ev Hk) as (_ & _ & Hc). exact Hc.
  - destruct Hshape as (-> & _). intros k ev Hk. destruct k; discriminate Hk.
Qed.

(** X13.  The track number is not optional in an album listing: when a
    track embedded in the album payload has no [track_number],
    [get_album_details] prints the failure and returns [None] after the
    album request, without the record of any track. *)
Theorem album_needs_every_track_number album_id w album s l d :
  respond (provider w) (ReqAlbum album_id) = (Ok album, s) ->
  first_page album = Ok l ->
  In (VDict d) l ->
  dict_lookup "track_number" d = None ->
  exists e,
    get_album_details respond album_id w
    = (Ok VNone, after w s (ReqAlbum album_id) (Ok album)
                   [LineExn "Error fetching album details: " e]).
Proof.
  intros Hr Hl Hin Hd.
  destruct (album_prelude_bad_item album l Hl) as [e He].
  { apply Exists_exists. exists (VDict d). split; [exact Hin|].
    apply unnumbered_item_fails. exact Hd. }
  exists e. rewrite get_album_details_eq. rewrite Hr, He. reflexivity.
Qed.

(** X14.  No failure is swallowed in silence.  When [get_track_details]
    or [get_album_details] returns [None], the last line it printed is
    the failure; when it returns a record it printed no failure: nothing
    for a track, nothing or the warning of the safety check for an
    album. *)
Theorem swallowed_failures_are_logged :
  (forall track_id w v w',
     get_track_details respond track_id w = (Ok v, w') ->
     (v = VNone ->
      exists e,
        stdout w' = stdout w ++ [LineExn "Error fetching track details: " e])
     /\ (v <> VNone -> stdout w' = stdout w))
  /\ (forall album_id w v w',
        get_album_details respond album_id w = (Ok v, w') ->
        (v = VNone ->
         exists e lines,
           stdout w' = stdout w ++ lines
                         ++ [LineExn "Error fetching album details: " e]
           /\ (lines = [] \/ lines = [ceiling_warning album_id]))
        /\ (v <> VNone ->
            stdout w' = stdout w
            \/ stdout w' = stdout w ++ [ceiling_warning album_id])).
Proof.
  split.
  - intros track_id w v w'. rewrite get_track_details_run. cbv zeta.
    destruct (respond _ _) as [r s].
    destruct (rbind r _) as [v0|e] eqn:Hb; intros [= <- <-]; simpl.
    + split; [|intros _; apply app_nil_r].
      intros ->. destruct r as [track|e]; simpl in Hb; [|discriminate].
      apply track_details_record_fields in Hb.
      destruct Hb as (_ & _ & _ & Hne & _). congruence.
    + split; [eauto | congruence].
  - intros album_id w v w' H. apply get_album_details_shape in H.
    destruct H as (ra & s & pages & _ & _ & Hshape).
    destruct (album_prelude ra) as [[[album rs] next]|e].
    + destruct Hshape as (_ & _ & [Hrec | [Hv Hnone]]).
      * destruct Hrec as (v0 & rs' & [= <-] & Hne & _ & _ & Hout).
        split; [congruence | auto].
      * injection Hv as ->. split; [auto | congruence].
    + destruct Hshape as (_ & [= ->] & Hs). split; [|congruence].
      intros _. exists e, []. auto.
Qed.

End Extras.

(* ===================================================================== *)
(** ** The further properties on the sample providers *)
(* ===================================================================== *)

(** X1 on the sample catalog, asked for two albums. *)
Lemma search_albums_one_record_per_item_witness :
  exists albums,
    value_of (search_albums (catalog 12 12 50) "album" 2 (world0 tt))
    = VList albums
    /\ Z.of_nat (length albums) <= 2
    /\ Forall2 (fun item r => search_album_record item = Ok r)
         [album_summary; album_summary] albums.
Proof.
  destruct (search_albums_one_record_per_item unit (catalog 12 12 50)
              "album" 2 (world0 tt)
              (VDict [("albums", VDict [("items",
                        VList [album_summary; album_summary])])]) tt
              (VDict [("items", VList [album_summary; album_summary])])
              [album_summary; album_summary] eq_refl eq_refl eq_refl)
    as [H _]; [simpl; lia|].
  apply (H _ (snd (search_albums (catalog 12 12 50) "album" 2 (world0 tt)))).
  vm_compute. reflexivity.
Defined.

(** X2 on a search answer with a null after its first track. *)
Lemma search_fails_on_first_bad_item_witness :
  search_tracks gappy "song" 20 (world0 tt)
  = (Raise TypeError,
     after (world0 tt) tt (ReqSearch "song" "track" 20)
       (Ok (VDict [("tracks", VDict [("items",
              VList [full_track 0; VNone; full_track 2])])]))
       [LineExn "Spotify search error: " TypeError]).
Proof.
  apply (proj1 (search_fails_on_first_bad_item unit gappy "song" 20 (world0 tt)
                  (VDict [("tracks", VDict [("items",
                     VList [full_track 0; VNone; full_track 2])])]) tt
                  [full_track 0] VNone [full_track 2]
                  (firstn 1 search_tracks_sample) TypeError)).
  - reflexivity.
  - exists (VDict [("items", VList [full_track 0; VNone; full_track 2])]),
      (VList [full_track 0; VNone; full_track 2]).
    repeat split.
  - constructor; [reflexivity | constructor].
  - reflexivity.
Defined.

(** X3 on a track payload that is an empty object. *)
Lemma track_lookup_needs_required_keys_witness :
  exists e,
    get_track_details hollow "t" (world0 tt)
    = (Ok VNone, after (world0 tt) tt (ReqTrack "t") (Ok (VDict []))
                   [LineExn "Error fetching track details: " e]).
Proof.
  apply (track_lookup_needs_required_keys unit hollow "t" (world0 tt) [] tt "id").
  - reflexivity.
  - simpl. tauto.
  - reflexivity.
Defined.

(** X4 on a track payload without preview link, on an album without
    release date. *)
Lemma track_lookup_defaults_witness :
  getitem imageless_record_sample "preview_url" = Ok VNone
  /\ getitem imageless_record_sample "release_date" = Ok (VStr "").
Proof.
  destruct (track_lookup_defaults unit imageless "t" (world0 tt)
              imageless_record_sample
              (snd (get_track_details imageless "t" (world0 tt))) eq_refl)
    as (d & da & Hd & Hda & Hp & Hr); [discriminate|].
  injection Hd as <-. injection Hda as <-. split; assumption.
Defined.

(** X5 on the sample catalog: the keys of a looked-up album and of its
    tracks. *)
Lemma records_have_fixed_keys_witness :
  keys album_record_sample = album_details_keys
  /\ exists tracks,
       getitem album_record_sample "tracks" = Ok (VList tracks)
       /\ Forall (fun r => keys r = album_track_keys) tracks.
Proof.
  destruct (records_have_fixed_keys unit (catalog 120 50 50))
    as (_ & _ & _ & Ha).
  apply (Ha "a" (world0 tt) album_record_sample
           (snd (get_album_details (catalog 120 50 50) "a" (world0 tt))));
    [vm_compute; reflexivity | discriminate].
Defined.


(** X7 on a track whose album has a null for images. *)
Lemma album_art_is_none_without_images_witness :
  getitem imageless_record_sample "album_art" = Ok VNone.
Proof.
  destruct (album_art_is_none_without_images unit imageless)
    as (_ & Ht & _ & _).
  destruct (Ht "t" (world0 tt) imageless_record_sample
              (snd (get_track_details imageless "t" (world0 tt))) eq_refl)
    as (track & Hr & Hart); [discriminate|].
  injection Hr as <-.
  exact (Hart imageless_album eq_refl VNone eq_refl eq_refl).
Defined.

(** X8 on the sample catalog: a looked-up track against the search
    record of the same payload, a looked-up album against its own. *)
Lemma lookup_records_extend_search_records_witness :
  (exists track r,
     fst (catalog 120 50 50 tt (ReqTrack "t")) = Ok track
     /\ search_track_record track = Ok r
     /\ fields_within r full_track_record_sample)
  /\ (exists album r tracks,
        fst (catalog 120 50 50 tt (ReqAlbum "a")) = Ok album
        /\ search_album_record album = Ok r
        /\ album_record_sample = with_tracks r tracks).
Proof.
  destruct (lookup_records_extend_search_records unit (catalog 120 50 50))
    as (Ht & Ha).
  split.
  - apply (Ht "t" (world0 tt) full_track_record_sample
             (snd (get_track_details (catalog 120 50 50) "t" (world0 tt))));
      [reflexivity | discriminate].
  - apply (Ha "a" (world0 tt) album_record_sample
             (snd (get_album_details (catalog 120 50 50) "a" (world0 tt))));
      [vm_compute; reflexivity | discriminate].
Defined.

(** X9 on the sample catalog: 50 tracks embedded, the first page asked
    for at offset 50. *)
Lemma paging_starts_after_embedded_tracks_witness :
  exists res pages,
    trace (snd (get_album_details (catalog 120 50 50) "a" (world0 tt)))
    = trace (world0 tt) ++ (ReqAlbum "a", Ok (album_obj 120 50))
        :: (ReqAlbumTracks "a" 50
              (Z.of_nat (length (firstn 50 (track_items 120)))), res)
        :: pages.
Proof.
  apply (proj2 (paging_starts_after_embedded_tracks unit (catalog 120 50 50)
                  "a" (world0 tt) (album_obj 120 50) tt
                  (firstn 50 (track_items 120)) (page 120 0 50)
                  (VStr "https://api/next")
                  eq_refl eq_refl (embedded_items_reshape 120 50)
                  eq_refl eq_refl)).
  reflexivity.
Defined.

(** X10 on the sample catalog. *)
Lemma album_listing_follows_served_order_witness :
  exists album l pages tracks,
    fst (catalog 120 50 50 tt (ReqAlbum "a")) = Ok album
    /\ first_page album = Ok l
    /\ trace (snd (get_album_details (catalog 120 50 50) "a" (world0 tt)))
       = trace (world0 tt) ++ (ReqAlbum "a", Ok album) :: pages
    /\ getitem album_record_sample "tracks" = Ok (VList tracks)
    /\ Forall2 (fun item x => album_track_record album item = Ok x)
         (l ++ flat_map (fun ev => page_items (snd ev)) pages) tracks.
Proof.
  apply (album_listing_follows_served_order unit (catalog 120 50 50) "a"
           (world0 tt) album_record_sample
           (snd (get_album_details (catalog 120 50 50) "a" (world0 tt)))).
  - vm_compute. reflexivity.
  - discriminate.
Defined.

(** X13 on an album whose second embedded track has no number. *)
Lemma album_needs_every_track_number_witness :
  exists e,
    get_album_details numberless "a" (world0 tt)
    = (Ok VNone, after (world0 tt) tt (ReqAlbum "a") (Ok numberless_album)
                   [LineExn "Error fetching album details: " e]).
Proof.
  apply (album_needs_every_track_number unit numberless "a" (world0 tt)
           numberless_album tt [track_item 0; unnumbered_item]
           unnumbered_fields).
  - reflexivity.
  - reflexivity.
  - right. left. reflexivity.
  - reflexivity.
Defined.

(** X14 on a provider out of service and on one that fails on the pages
    of an album. *)
Lemma swallowed_failures_are_logged_witness :
  (exists e,
     stdout (snd (get_track_details down "t" (world0 tt)))
     = stdout (world0 tt) ++ [LineExn "Error fetching track details: " e])
  /\ (exists e lines,
        stdout (snd (get_album_details flaky "a" (world0 tt)))
        = stdout (world0 tt) ++ lines
            ++ [LineExn "Error fetching album details: " e]
        /\ (lines = [] \/ lines = [ceiling_warning "a"])).
Proof.
  destruct (swallowed_failures_are_logged unit down) as (Ht & _).
  destruct (swallowed_failures_are_logged unit flaky) as (_ & Ha).
  split.
  - apply (proj1 (Ht "t" (world0 tt) VNone
                    (snd (get_track_details down "t" (world0 tt))) eq_refl)).
    reflexivity.
  - apply (proj1 (Ha "a" (world0 tt) VNone
                    (snd (get_album_details flaky "a" (world0 tt))) eq_refl)).
    reflexivity.
Defined.

(** X11 on the sample catalog. *)
Lemma page_requests_step_by_50_witness :
  exists ra pages n0,
    trace (snd (get_album_details (catalog 120 50 50) "a" (world0 tt)))
    = trace (world0 tt) ++ (ReqAlbum "a", ra) :: pages
    /\ (length pages <= 20)%nat
    /\ (forall k ev,
          nth_error pages k = Some ev ->
          fst ev = ReqAlbumTracks "a" 50 (Z.of_nat n0 + 50 * Z.of_nat k))
    /\ (pages <> [] ->
        exists album l,
          ra = Ok album /\ first_page album = Ok l /\ n0 = length l).
Proof.
  exact (page_requests_step_by_50 unit (catalog 120 50 50) "a" (world0 tt)).
Defined.

(** X12 on the sample catalog. *)
Lemma next_page_only_after_link_witness :
  exists ra pages,
    trace (snd (get_album_details (catalog 120 50 50) "a" (world0 tt)))
    = trace (world0 tt) ++ (ReqAlbum "a", ra) :: pages
    /\ forall k ev,
         nth_error pages k = Some ev ->
         (S k < length pages)%nat ->
         page_continues (snd ev).
Proof.
  exact (next_page_only_after_link unit (catalog 120 50 50) "a" (world0 tt)).
Defined.
